(** * A shallow embedding of the a11y-audit crawler (src/crawler.ts)

    The development follows [AccessibilityCrawler] and [main] of
    src/crawler.ts.  The browser (Playwright), the analysis engines
    (axe-core, Lighthouse), the wall clock and the JS platform's URL parser
    are the program's environment: they are parameters of the definitions,
    and the crawler's own code is written out over them.

    JS strings are modelled as Rocq strings (bytes); the URLs the crawler
    handles are ASCII after the URL parser's percent-encoding. *)

From Stdlib Require Import String Ascii List ZArith QArith Bool Lia.
Import ListNotations.
Open Scope string_scope.

(** ** String helpers (the JS string methods the code calls) *)

(** [String.prototype.toLowerCase] on ASCII. *)
Definition ascii_lower (c : ascii) : ascii :=
  let n := nat_of_ascii c in
  if (65 <=? n)%nat && (n <=? 90)%nat then ascii_of_nat (n + 32) else c.

Fixpoint toLowerCase (s : string) : string :=
  match s with
  | EmptyString => EmptyString
  | String c s' => String (ascii_lower c) (toLowerCase s')
  end.

(** [s.endsWith(suffix)] *)
Definition endsWith (s suffix : string) : bool :=
  let n := String.length s in
  let k := String.length suffix in
  (k <=? n)%nat && String.eqb (substring (n - k) k s) suffix.

(** [s.startsWith(p)] *)
Definition startsWith (s p : string) : bool := String.prefix p s.

(** Decimal rendering of a non-negative integer in a template literal. *)
Fixpoint digits_rev (fuel n : nat) : string :=
  match fuel with
  | O => EmptyString
  | S f =>
      let d := String (ascii_of_nat (48 + n mod 10)) EmptyString in
      if (n <? 10)%nat then d else digits_rev f (n / 10) ++ d
  end.

Definition nat_to_string (n : nat) : string := digits_rev (S n) n.

(** ** The platform URL object

    [new URL(s)] yields a URL record or throws.  The record keeps the
    fields of the standard's URL record that the code reads or that the
    serializer ([href]) writes out.  The host is [None] when the URL has
    none (as in [mailto:x] or [web+demo:/x]) and [Some ""] when it is empty
    (as in [file:///x]); the [hostname] getter shows both as [""].  The
    fragment is [None] when the URL has no fragment (the JS setter
    [hash = ""] sets it to null). *)
Record URL := mkURL {
  protocol : string;   (* "https:" *)
  username : string;
  password : string;
  hostname : option string;  (* the serialised host, or None *)
  port : string;       (* "" when the port is null (default or absent) *)
  pathname : string;   (* the serialised path *)
  search : string;     (* "?" followed by the query, "" when it is null *)
  fragment : option string
}.

(** The special schemes whose origin is a (scheme, host, port) tuple
    ([file:] is special too, but its origin is opaque). *)
Definition special_scheme (p : string) : bool :=
  existsb (String.eqb p) ["http:"; "https:"; "ws:"; "wss:"; "ftp:"].

Definition host_part (u : URL) : string :=
  match hostname u with Some h => h | None => "" end
  ++ (if String.eqb (port u) "" then "" else ":" ++ port u).

(** The serialised tuple origin of a URL of a special scheme, the opaque
    origin ["null"] otherwise. *)
Definition tuple_origin (u : URL) : string :=
  if special_scheme (protocol u) then protocol u ++ "//" ++ host_part u
  else "null".

(** [url.origin]: for [blob:] the origin of the URL its path parses to, when
    that is an [http:] or [https:] URL ([file:] origins are opaque), and
    ["null"] otherwise (a URL the page itself created with
    [URL.createObjectURL] would keep its creator's origin; the crawler
    creates none); the tuple origin for the other schemes. *)
Definition origin (URL_parse : string -> option URL) (u : URL) : string :=
  if String.eqb (protocol u) "blob:" then
    match URL_parse (pathname u) with
    | Some v =>
        if String.eqb (protocol v) "http:" || String.eqb (protocol v) "https:"
        then tuple_origin v else "null"
    | None => "null"
    end
  else tuple_origin u.

Definition userinfo (u : URL) : string :=
  if String.eqb (username u) "" && String.eqb (password u) "" then ""
  else username u ++ (if String.eqb (password u) "" then "" else ":" ++ password u) ++ "@".

(** [url.href]: the URL serializer.  A URL with a host (even an empty one)
    gets [//], its credentials, host and port; a URL without a host whose
    path starts with an empty segment ([//...]) gets [/.] in front of its
    path, so that the path is not read back as a host. *)
Definition href (u : URL) : string :=
  protocol u
  ++ match hostname u with
     | Some _ => "//" ++ userinfo u ++ host_part u
     | None => if startsWith (pathname u) "//" then "/." else ""
     end
  ++ pathname u ++ search u
  ++ match fragment u with Some f => "#" ++ f | None => "" end.

(** [parsed.hash = ""] *)
Definition clear_hash (u : URL) : URL :=
  {| protocol := protocol u; username := username u; password := password u;
     hostname := hostname u; port := port u; pathname := pathname u;
     search := search u; fragment := None |}.

(** Two URLs that differ at most in their fragment. *)
Definition same_but_fragment (u1 u2 : URL) : Prop :=
  protocol u1 = protocol u2 /\ username u1 = username u2 /\
  password u1 = password u2 /\ hostname u1 = hostname u2 /\
  port u1 = port u2 /\ pathname u1 = pathname u2 /\ search u1 = search u2.

(** ** URL classification (AccessibilityCrawler.normalizeUrl, isInternalUrl,
    isWebPage).  [URL_parse] is the platform's [new URL(...)]: [None] is
    the thrown TypeError. *)
Section Classify.

Variable URL_parse : string -> option URL.

(** [normalizeUrl]: try { parsed = new URL(url); parsed.hash = "";
    return parsed.href } catch { return url } *)
Definition normalizeUrl (url : string) : string :=
  match URL_parse url with
  | Some parsed => href (clear_hash parsed)
  | None => url
  end.

(** [isInternalUrl]: new URL(url).origin === this.baseUrl, false on throw. *)
Definition isInternalUrl (baseUrl url : string) : bool :=
  match URL_parse url with
  | Some u => String.eqb (origin URL_parse u) baseUrl
  | None => false
  end.

Definition fileExtensions : list string :=
  [".pdf"; ".zip"; ".doc"; ".docx"; ".xls"; ".xlsx"; ".ppt"; ".pptx";
   ".jpg"; ".jpeg"; ".png"; ".gif"; ".svg"; ".webp"; ".ico"; ".mp4";
   ".avi"; ".mov"; ".wmv"; ".mp3"; ".wav"; ".xml"; ".json"; ".csv";
   ".txt"; ".dmg"; ".exe"; ".pkg"; ".deb"; ".rpm"].

(** [isWebPage]: !fileExtensions.some(ext => pathname.endsWith(ext)),
    true on throw. *)
Definition isWebPage (url : string) : bool :=
  match URL_parse url with
  | Some u =>
      let p := toLowerCase (pathname u) in
      negb (existsb (fun ext => endsWith p ext) fileExtensions)
  | None => true
  end.

End Classify.

(** ** Analysis results (the parts of axe-core's and Lighthouse's result
    objects the crawler and its report read) *)

Inductive ImpactValue := minor | moderate | serious | critical.

Record NodeResult := mkNode {
  html : string;
  failureSummary : option string
}.

Record Violation := mkViolation {
  id : string;
  help : string;
  description : string;
  helpUrl : string;
  impact : option ImpactValue;   (* axe's impact may be null/undefined *)
  nodes : list NodeResult
}.

Record AxeResults := mkAxe { violations : list Violation }.

(** Lighthouse scores are JS numbers in [0, 1]; they are modelled as
    rationals, [None] being [null]. *)
Record Audit := mkAudit {
  title : string;
  audit_description : string;
  score : option Q;
  scoreDisplayMode : string
}.

Record LighthouseResult := mkLhr {
  accessibility_score : option Q;   (* categories.accessibility.score *)
  audits : list Audit
}.

Record PageResult := mkPageResult {
  url : string;
  axeResults : AxeResults;
  lighthouseResults : option LighthouseResult;
  timestamp : string
}.

(** ** Crawler state

    The fields of [AccessibilityCrawler]; [browser] and [context] record
    whether the handles are non-null.  [visitedUrls] is the JS [Set] in
    insertion order.  [console] collects, in order, the console output and
    the calls made to the browser and the analysis engines. *)

Inductive event :=
| EvCrawling (u : string) (n : nat) (m : Z)   (* console.log("Crawling: ...") *)
| EvNewPage (u : string)                      (* context.newPage() *)
| EvGoto (u : string)                         (* page.goto(u) *)
| EvAxe (u : string)                          (* new AxeBuilder({page}).analyze() *)
| EvLighthouse (u : string)                   (* lighthouse(u, ...) *)
| EvLighthouseError (u : string)              (* console.error("Lighthouse error ...") *)
| EvExtractLinks (u : string)                 (* page.evaluate(...) *)
| EvClosePage (u : string)                    (* page.close() *)
| EvCrawlError (u : string)                   (* console.error("Error crawling ...") *)
| EvCloseContext                              (* context.close() *)
| EvCloseBrowser                              (* browser.close() *)
| EvMainError.                                (* console.error("Error:", error) in main *)

Record crawler := mkCrawler {
  browser : bool;
  context : bool;
  visitedUrls : list string;
  baseUrl : string;
  maxPages : Z;
  results : list PageResult;
  console : list event
}.

Definition size (st : crawler) : nat := length (visitedUrls st).

(** ** A state and exception monad for the async methods

    An awaited call that rejects is a thrown exception. *)

Inductive exn := Thrown (what : string).

Definition M (A : Type) : Type := crawler -> crawler * (A + exn).

Definition ret {A} (x : A) : M A := fun st => (st, inl x).

Definition bind {A B} (m : M A) (k : A -> M B) : M B :=
  fun st => match m st with
            | (st', inl x) => k x st'
            | (st', inr e) => (st', inr e)
            end.

Definition throw {A} (e : exn) : M A := fun st => (st, inr e).

Definition try_catch {A} (m : M A) (h : exn -> M A) : M A :=
  fun st => match m st with
            | (st', inr e) => h e st'
            | r => r
            end.

Definition get : M crawler := fun st => (st, inl st).

Definition put (st : crawler) : M unit := fun _ => (st, inl tt).

Notation "x <- m ;; k" := (bind m (fun x => k))
  (at level 61, m at next level, right associativity).
Notation "m ;; k" := (bind m (fun _ => k)) (at level 61, right associativity).

Definition set_visited (v : list string) (st : crawler) : crawler :=
  mkCrawler (browser st) (context st) v (baseUrl st) (maxPages st)
    (results st) (console st).

Definition set_results (r : list PageResult) (st : crawler) : crawler :=
  mkCrawler (browser st) (context st) (visitedUrls st) (baseUrl st)
    (maxPages st) r (console st).

Definition set_console (c : list event) (st : crawler) : crawler :=
  mkCrawler (browser st) (context st) (visitedUrls st) (baseUrl st)
    (maxPages st) (results st) c.

Definition log (e : event) : M unit :=
  fun st => (set_console (console st ++ [e]) st, inl tt).

(** [this.visitedUrls.add(u)] *)
Definition add_visited (u : string) : M unit :=
  fun st =>
    (if existsb (String.eqb u) (visitedUrls st) then st
     else set_visited (visitedUrls st ++ [u]) st, inl tt).

(** [this.results.push(r)] *)
Definition push_result (r : PageResult) : M unit :=
  fun st => (set_results (results st ++ [r]) st, inl tt).

(** An awaited call that resolves ([Some]) or rejects ([None]). *)
Definition await {A} (what : string) (o : option A) : M A :=
  match o with Some x => ret x | None => throw (Thrown what) end.

Definition await_ok (what : string) (ok : bool) : M unit :=
  if ok then ret tt else throw (Thrown what).

(** ** The environment of one page

    What the browser and the engines do for a (normalised) URL: whether
    [context.newPage()], [page.goto] and [page.close()] resolve, the axe
    result or its failure, the Lighthouse result ([None]: the call
    throws; [Some None]: no [lhr]), and the hrefs of the rendered
    [a[href]] elements ([None]: [page.evaluate] throws). *)
Record page_behaviour := mkBehaviour {
  newPage_ok : bool;
  goto_ok : bool;
  axe_outcome : option AxeResults;
  lighthouse_outcome : option (option LighthouseResult);
  evaluate_outcome : option (list string);
  close_ok : bool
}.

(** ** AccessibilityCrawler.crawl *)
Section Crawl.

Variable URL_parse : string -> option URL.
(** The browser's and the engines' behaviour on each (normalised) URL. *)
Variable site : string -> page_behaviour.
(** [new Date().toISOString()], read after the given number of events. *)
Variable clock : nat -> string.

Definition close_page (u : string) : M unit :=
  log (EvClosePage u) ;; await_ok "page.close" (close_ok (site u)).

(** The [for (const link of links)] loop, with its budget [break]. *)
Fixpoint crawl_links (crawl : string -> M unit) (links : list string) : M unit :=
  match links with
  | [] => ret tt
  | link :: rest =>
      st <- get ;;
      if (maxPages st <=? Z.of_nat (size st))%Z then ret tt
      else (crawl link ;; crawl_links crawl rest)
  end.

(** The body of the [try] block of [crawl], for the reserved URL
    [normalizedUrl]; [crawl] is the recursive call. *)
Definition crawl_body (crawl : string -> M unit) (normalizedUrl : string) : M unit :=
  let pg := site normalizedUrl in
  log (EvNewPage normalizedUrl) ;;
  await_ok "context.newPage" (newPage_ok pg) ;;
  log (EvGoto normalizedUrl) ;;
  await_ok "page.goto" (goto_ok pg) ;;
  log (EvAxe normalizedUrl) ;;
  axeResults <- await "axe" (axe_outcome pg) ;;
  log (EvLighthouse normalizedUrl) ;;
  lighthouseResults <-
    try_catch (lhr <- await "lighthouse" (lighthouse_outcome pg) ;; ret lhr)
              (fun _ => log (EvLighthouseError normalizedUrl) ;; ret None) ;;
  st <- get ;;
  push_result (mkPageResult normalizedUrl axeResults lighthouseResults
                 (clock (length (console st)))) ;;
  st' <- get ;;
  if (Z.of_nat (size st') <? maxPages st')%Z then
    (log (EvExtractLinks normalizedUrl) ;;
     hrefs <- await "page.evaluate" (evaluate_outcome pg) ;;
     let links := filter (fun h => startsWith h "http") hrefs in
     close_page normalizedUrl ;;
     crawl_links crawl links)
  else close_page normalizedUrl.

(** [crawl(url)].  The recursion is bounded by [fuel]; [crawl] below gives
    it the budget, which is always enough (lemma [crawl_f_fuel_enough]):
    every nested call reserves one more URL. *)
Fixpoint crawl_f (fuel : nat) (url : string) : M unit :=
  st <- get ;;
  if negb (browser st && context st) || (maxPages st <=? Z.of_nat (size st))%Z
  then ret tt
  else
    match fuel with
    | O => ret tt
    | S fuel' =>
        let normalizedUrl := normalizeUrl URL_parse url in
        if existsb (String.eqb normalizedUrl) (visitedUrls st)
           || negb (isInternalUrl URL_parse (baseUrl st) normalizedUrl)
           || negb (isWebPage URL_parse normalizedUrl)
        then ret tt
        else
          (add_visited normalizedUrl ;;
           st1 <- get ;;
           log (EvCrawling normalizedUrl (size st1) (maxPages st1)) ;;
           try_catch (crawl_body (crawl_f fuel') normalizedUrl)
                     (fun _ => log (EvCrawlError normalizedUrl)))
    end.

Definition crawl (url : string) : M unit :=
  fun st => crawl_f (S (Z.to_nat (maxPages st))) url st.

End Crawl.

(** [new AccessibilityCrawler(startUrl, maxPages)]: throws on an invalid
    start URL. *)
Definition new_crawler (URL_parse : string -> option URL) (startUrl : string)
    (maxPages : Z) : option crawler :=
  match URL_parse startUrl with
  | Some u => Some (mkCrawler false false [] (origin URL_parse u) maxPages [] [])
  | None => None
  end.

(** [initialize()]: [chromium.launch] then [browser.newContext()]; a
    rejection leaves the handle null (and is thrown to [main]). *)
Definition initialize (launch_ok newContext_ok : bool) (st : crawler) : crawler :=
  mkCrawler launch_ok (launch_ok && newContext_ok) (visitedUrls st) (baseUrl st)
    (maxPages st) (results st) (console st).

(** The crawler states a session goes through, between calls to its
    public methods. *)
Inductive reachable (URL_parse : string -> option URL) : crawler -> Prop :=
| reach_new startUrl m st :
    new_crawler URL_parse startUrl m = Some st -> reachable URL_parse st
| reach_initialize st l c :
    reachable URL_parse st -> reachable URL_parse (initialize l c st)
| reach_crawl st site clock u :
    reachable URL_parse st ->
    reachable URL_parse (fst (crawl URL_parse site clock u st)).

(** ** AccessibilityCrawler.generateMarkdownReport *)

Definition nl : string := String (ascii_of_nat 10) EmptyString.

Definition ImpactValue_eqb (a b : ImpactValue) : bool :=
  match a, b with
  | minor, minor | moderate, moderate | serious, serious
  | critical, critical => true
  | _, _ => false
  end.

(** [v.impact === i] *)
Definition has_impact (i : ImpactValue) (v : Violation) : bool :=
  match impact v with Some j => ImpactValue_eqb j i | None => false end.

Definition impact_name (i : ImpactValue) : string :=
  match i with
  | minor => "minor" | moderate => "moderate"
  | serious => "serious" | critical => "critical"
  end.

(** [${violation.impact}] *)
Definition impact_to_string (o : option ImpactValue) : string :=
  match o with Some i => impact_name i | None => "null" end.

(** [impact.toUpperCase()] of the four keys of [byImpact]. *)
Definition impact_upper (i : ImpactValue) : string :=
  match i with
  | minor => "MINOR" | moderate => "MODERATE"
  | serious => "SERIOUS" | critical => "CRITICAL"
  end.

(** The [byImpact] object, in the key order [Object.entries] yields. *)
Definition byImpact (vs : list Violation) : list (ImpactValue * list Violation) :=
  [(critical, filter (has_impact critical) vs);
   (serious, filter (has_impact serious) vs);
   (moderate, filter (has_impact moderate) vs);
   (minor, filter (has_impact minor) vs)].

(** A JS string is truthy when it is not empty. *)
Definition truthy (s : string) : bool := negb (String.eqb s "").

Definition opt_truthy (o : option string) : bool :=
  match o with Some s => truthy s | None => false end.

Section Report.

(** [new Date(iso).toLocaleString()] and [Number.prototype.toFixed]: the
    platform's (locale and time zone dependent) formatting. *)
Variable dateToLocaleString : string -> string.
Variable toFixed : Q -> nat -> string.

Fixpoint concat_map {A} (f : A -> string) (l : list A) : string :=
  match l with [] => "" | x :: l' => f x ++ concat_map f l' end.

Definition sumQ (l : list Q) : Q := fold_left Qplus l 0.

(** [score! * 100]: a null score is 0 in the product. *)
Definition lh_score (l : LighthouseResult) : Q :=
  match accessibility_score l with Some s => s * 100 | None => 0 end.

Definition render_node (i : nat) (node : NodeResult) : string :=
  "**Element " ++ nat_to_string (i + 1) ++ ":**" ++ nl ++ "```html" ++ nl
  ++ html node ++ nl ++ "```" ++ nl
  ++ (if opt_truthy (failureSummary node)
      then match failureSummary node with Some s => s | None => "" end ++ nl ++ nl
      else "").

Fixpoint render_nodes (i : nat) (ns : list NodeResult) : string :=
  match ns with
  | [] => ""
  | n :: ns' => render_node i n ++ render_nodes (S i) ns'
  end.

Definition render_violation (violation : Violation) : string :=
  let n := length (nodes violation) in
  "**" ++ help violation ++ "**" ++ nl ++ nl
  ++ "- **Description:** " ++ description violation ++ nl
  ++ "- **Impact:** " ++ impact_to_string (impact violation) ++ nl
  ++ "- **Affected Elements:** " ++ nat_to_string n ++ nl
  ++ "- **Learn More:** [" ++ id violation ++ "](" ++ helpUrl violation ++ ")" ++ nl ++ nl
  ++ (if (0 <? n)%nat then
        "<details>" ++ nl ++ "<summary>View affected elements</summary>" ++ nl ++ nl
        ++ render_nodes 0 (firstn 3 (nodes violation))
        ++ (if (3 <? n)%nat
            then "... and " ++ nat_to_string (n - 3) ++ " more element(s)" ++ nl ++ nl
            else "")
        ++ "</details>" ++ nl ++ nl
      else "").

Definition impact_emoji (i : ImpactValue) : string :=
  match i with
  | critical => "🔴" | serious => "🟠" | moderate => "🟡" | minor => "🔵"
  end.

Definition render_group (g : ImpactValue * list Violation) : string :=
  let (i, violations) := g in
  match violations with
  | [] => ""
  | _ =>
      "#### " ++ impact_emoji i ++ " " ++ impact_upper i ++ " ("
      ++ nat_to_string (length violations) ++ ")" ++ nl ++ nl
      ++ concat_map render_violation violations
  end.

Definition render_axe (a : AxeResults) : string :=
  match violations a with
  | [] => "### ✅ Axe-core: No violations found!" ++ nl ++ nl
  | vs =>
      "### Axe-core Violations (" ++ nat_to_string (length vs) ++ ")" ++ nl ++ nl
      ++ concat_map render_group (byImpact vs)
  end.

(** [audit.score !== null && audit.score < 1 &&
     audit.scoreDisplayMode !== "notApplicable"] *)
Definition failed_audit (a : Audit) : bool :=
  match score a with
  | Some s => negb (Qle_bool 1 s) && negb (String.eqb (scoreDisplayMode a) "notApplicable")
  | None => false
  end.

Definition render_audit (a : Audit) : string :=
  "- **" ++ title a ++ "**" ++ nl
  ++ (if truthy (audit_description a) then "  " ++ audit_description a ++ nl else "").

Definition render_lighthouse (o : option LighthouseResult) : string :=
  match o with
  | None => ""
  | Some l =>
      let s := lh_score l in
      let emoji := if Qle_bool 90 s then "🟢" else if Qle_bool 50 s then "🟡" else "🔴" in
      let failedAudits := filter failed_audit (audits l) in
      "### " ++ emoji ++ " Lighthouse Accessibility Score: " ++ toFixed s 0 ++ "/100" ++ nl ++ nl
      ++ (if (0 <? length failedAudits)%nat then
            "**Lighthouse Issues (" ++ nat_to_string (length failedAudits) ++ "):**" ++ nl ++ nl
            ++ concat_map render_audit failedAudits ++ nl
          else "")
  end.

Definition render_page (pageResult : PageResult) : string :=
  "## Page: " ++ url pageResult ++ nl ++ nl
  ++ "**Analyzed:** " ++ dateToLocaleString (timestamp pageResult) ++ nl ++ nl
  ++ render_lighthouse (lighthouseResults pageResult)
  ++ render_axe (axeResults pageResult)
  ++ "---" ++ nl ++ nl.

(** Everything after the ["Generated"] line. *)
Definition report_body (results : list PageResult) : string :=
  let totalViolations :=
    fold_left (fun sum r => sum + length (violations (axeResults r)))%nat results 0%nat in
  let criticalIssues :=
    fold_left (fun sum r =>
      sum + length (filter (has_impact critical) (violations (axeResults r))))%nat results 0%nat in
  let seriousIssues :=
    fold_left (fun sum r =>
      sum + length (filter (has_impact serious) (violations (axeResults r))))%nat results 0%nat in
  let lighthouseScores :=
    map (fun r => match lighthouseResults r with Some l => lh_score l | None => 0 end)
      (filter (fun r => match lighthouseResults r with Some _ => true | None => false end)
         results) in
  let avgLighthouseScore :=
    if (0 <? length lighthouseScores)%nat
    then toFixed (sumQ lighthouseScores / inject_Z (Z.of_nat (length lighthouseScores))) 1
    else "N/A" in
  "**Pages Analyzed:** " ++ nat_to_string (length results) ++ nl ++ nl
  ++ "## Summary" ++ nl ++ nl
  ++ "### Axe-core Results" ++ nl ++ nl
  ++ "- **Total Violations:** " ++ nat_to_string totalViolations ++ nl
  ++ "- **Critical Issues:** " ++ nat_to_string criticalIssues ++ nl
  ++ "- **Serious Issues:** " ++ nat_to_string seriousIssues ++ nl ++ nl
  ++ "### Lighthouse Results" ++ nl ++ nl
  ++ "- **Average Accessibility Score:** " ++ avgLighthouseScore
  ++ (if String.eqb avgLighthouseScore "N/A" then "" else "/100") ++ nl ++ nl
  ++ "---" ++ nl ++ nl
  ++ concat_map render_page results.

Definition report_header : string := "# Accessibility Report" ++ nl ++ nl ++ "**Generated:** ".

(** [generateMarkdownReport()]; [now] is [new Date().toLocaleString()] read
    when the method runs. *)
Definition generateMarkdownReport (now : string) (st : crawler) : string :=
  report_header ++ now ++ nl ++ report_body (results st).

End Report.

(** ** AccessibilityCrawler.close and the [finally] of [main] *)

(** Whether [context.close()] and [browser.close()] resolve. *)
Record close_behaviour := mkCloseBehaviour {
  context_close_ok : bool;
  browser_close_ok : bool
}.

(** [close()]: if (this.context) await this.context.close();
    if (this.browser) await this.browser.close(); *)
Definition close (cb : close_behaviour) : M unit :=
  st <- get ;;
  (if context st
   then (log EvCloseContext ;; await_ok "context.close" (context_close_ok cb))
   else ret tt) ;;
  st' <- get ;;
  if browser st'
  then (log EvCloseBrowser ;; await_ok "browser.close" (browser_close_ok cb))
  else ret tt.

(** How [main()] ends: the process exits with a code, or the promise
    returned by [main()] rejects. *)
Inductive main_outcome := Exit (code : Z) | Rejected (e : exn).

(** [try { body } catch (error) { console.error(...); process.exit(1) }
     finally { await crawler.close() }]: [process.exit] ends the process
    at once, so the [finally] block runs only when [body] resolves; a
    rejection of [close()] rejects [main()]. *)
Definition main_try_finally (body : M unit) (cb : close_behaviour) (st : crawler)
    : crawler * main_outcome :=
  match body st with
  | (st1, inr _) => (set_console (console st1 ++ [EvMainError]) st1, Exit 1)
  | (st1, inl _) =>
      match close cb st1 with
      | (st2, inl _) => (st2, Exit 0)
      | (st2, inr e) => (st2, Rejected e)
      end
  end.

(** ** The [--max-pages] option of [main] *)

(** [Array.prototype.indexOf]: the first index, -1 when absent. *)
Fixpoint indexOf (l : list string) (x : string) : Z :=
  match l with
  | [] => -1
  | y :: l' =>
      if String.eqb y x then 0
      else let i := indexOf l' x in if (i =? -1)%Z then -1 else (i + 1)%Z
  end.

(** [args[i]]: [None] is [undefined]. *)
Definition arg_at (args : list string) (i : Z) : option string :=
  if (i <? 0)%Z then None else nth_error args (Z.to_nat i).

(** [parseInt(s)] with no radix.  A command-line argument is the string of
    UTF-8 bytes the process receives.  The steps are those of ECMAScript's
    [parseInt]: strip leading white space and line terminators, read an
    optional sign, an optional 0x/0X prefix (radix 16, else 10), then the
    longest run of digits of the radix; no digit gives NaN ([None]);
    otherwise the result is the Number value of the integer read: the
    nearest double, or an infinity.  (For more than 20 significant decimal
    digits the standard lets an engine zero the digits after the 20th
    before rounding; V8 and JavaScriptCore round the exact value, as
    here.) *)

(** The bytes of the code points JS trims: TAB, LF, VT, FF, CR, space
    (one byte); NBSP U+00A0 (two bytes); U+1680, U+2000 to U+200A, U+2028,
    U+2029, U+202F, U+205F, U+3000 and U+FEFF (three bytes). *)
Definition is_space (c : ascii) : bool :=
  existsb (Nat.eqb (nat_of_ascii c)) [9; 10; 11; 12; 13; 32]%nat.

Definition is_space2 (c1 c2 : ascii) : bool :=
  (nat_of_ascii c1 =? 194)%nat && (nat_of_ascii c2 =? 160)%nat.

Definition is_space3 (c1 c2 c3 : ascii) : bool :=
  let b1 := nat_of_ascii c1 in
  let b2 := nat_of_ascii c2 in
  let b3 := nat_of_ascii c3 in
  ((b1 =? 225) && (b2 =? 154) && (b3 =? 128))%nat
  || ((b1 =? 226) && (b2 =? 128)
      && ((b3 <=? 138) && (128 <=? b3) || (b3 =? 168) || (b3 =? 169) || (b3 =? 175)))%nat
  || ((b1 =? 226) && (b2 =? 129) && (b3 =? 159))%nat
  || ((b1 =? 227) && (b2 =? 128) && (b3 =? 128))%nat
  || ((b1 =? 239) && (b2 =? 187) && (b3 =? 191))%nat.

Fixpoint trimStart (s : string) : string :=
  match s with
  | String c r =>
      if is_space c then trimStart r else
      match r with
      | String c2 r2 =>
          if is_space2 c c2 then trimStart r2 else
          match r2 with
          | String c3 r3 => if is_space3 c c2 c3 then trimStart r3 else s
          | EmptyString => s
          end
      | EmptyString => s
      end
  | EmptyString => EmptyString
  end.

Definition digit_value (c : ascii) : option nat :=
  let n := nat_of_ascii c in
  if (48 <=? n)%nat && (n <=? 57)%nat then Some (n - 48)%nat
  else if (97 <=? n)%nat && (n <=? 122)%nat then Some (n - 87)%nat
  else if (65 <=? n)%nat && (n <=? 90)%nat then Some (n - 55)%nat
  else None.

(** The value of the longest prefix of radix-[radix] digits, added to
    [acc]; [None] when the prefix is empty and [seen] is false. *)
Fixpoint digits_value (radix : nat) (s : string) (acc : Z) (seen : bool) : option Z :=
  match s with
  | String c s' =>
      match digit_value c with
      | Some d =>
          if (d <? radix)%nat
          then digits_value radix s' (acc * Z.of_nat radix + Z.of_nat d)%Z true
          else if seen then Some acc else None
      | None => if seen then Some acc else None
      end
  | EmptyString => if seen then Some acc else None
  end.

(** A JS number as [parseInt] returns it, NaN apart: an integer-valued
    double, or an infinity ([Infinity true] is -Infinity).  [Finite 0]
    stands for both +0 and -0. *)
Inductive number := Finite (z : Z) | Infinity (negative : bool).

(** The Number value of an integer [x >= 0]: the double nearest to [x],
    ties going to the even significand, where [2^1024] counts as a
    candidate with an even significand and becomes +Infinity.  A double
    has 53 significant bits: [k] is the number of low bits of [x] that do
    not fit. *)
Definition round_nonneg (x : Z) : number :=
  let k := (Z.log2 x - 52)%Z in
  let y :=
    if (k <=? 0)%Z then x
    else
      let q := Z.shiftr x k in
      let r := (x - Z.shiftl q k)%Z in
      let half := Z.shiftl 1 (k - 1) in
      let q' := if (half <? r)%Z || ((r =? half)%Z && Z.odd q) then (q + 1)%Z else q in
      Z.shiftl q' k in
  if (Z.shiftl 1 1024 <=? y)%Z then Infinity false else Finite y.

(** ECMAScript's Number value for an integer (rounding is symmetric). *)
Definition number_of_Z (x : Z) : number :=
  if (x <? 0)%Z then
    match round_nonneg (- x) with
    | Finite y => Finite (- y)
    | Infinity _ => Infinity true
    end
  else round_nonneg x.

Definition parseInt (s0 : string) : option number :=
  let s1 := trimStart s0 in
  let '(sign, s2) :=
    match s1 with
    | String "-" r => ((-1)%Z, r)
    | String "+" r => (1%Z, r)
    | _ => (1%Z, s1)
    end in
  let '(radix, s3) :=
    match s2 with
    | String "0" (String x r) =>
        if Ascii.eqb x "x" || Ascii.eqb x "X" then (16%nat, r) else (10%nat, s2)
    | _ => (10%nat, s2)
    end in
  match digits_value radix s3 0 false with
  | Some v => Some (number_of_Z (sign * v))
  | None => None
  end.

(** JS truthiness of a number other than NaN: false exactly for +0 and -0. *)
Definition number_truthy (n : number) : bool :=
  match n with
  | Finite z => negb (z =? 0)%Z
  | Infinity _ => true
  end.

(** [maxPagesIndex !== -1 && args[maxPagesIndex + 1]
       ? parseInt(args[maxPagesIndex + 1]!) || 10 : 10]
    (NaN and 0 are falsy). *)
Definition maxPages_of_args (args : list string) : number :=
  let maxPagesIndex := indexOf args "--max-pages" in
  match (if (maxPagesIndex =? -1)%Z then None else arg_at args (maxPagesIndex + 1)) with
  | Some v =>
      if truthy v then
        match parseInt v with
        | Some n => if number_truthy n then n else Finite 10
        | None => Finite 10
        end
      else Finite 10
  | None => Finite 10
  end.

(** [s.replace(/[...]/g, "-")]: every character of [cs] becomes [r]. *)
Fixpoint replace_chars (cs : list ascii) (r : ascii) (s : string) : string :=
  match s with
  | EmptyString => EmptyString
  | String c s' => String (if existsb (Ascii.eqb c) cs then r else c) (replace_chars cs r s')
  end.

(** [s.slice(0, -k)]: the end index [length - k] is clamped at 0. *)
Definition slice_drop_end (s : string) (k : nat) : string :=
  substring 0 (String.length s - k) s.

Section Output.

(** [path.join] *)
Variable join : string -> string -> string.

(** [`${urlHostname}-${datetime}.md`], from the start URL's [hostname] and
    [new Date().toISOString()]. *)
Definition default_report_name (hostname iso : string) : string :=
  let urlHostname := replace_chars ["."%char] "-"%char hostname in
  let datetime := slice_drop_end (replace_chars [":"%char; "."%char] "-"%char iso) 5 in
  urlHostname ++ "-" ++ datetime ++ ".md".

(** [outputIndex !== -1 && args[outputIndex + 1] ? args[outputIndex + 1]
       : join("reports", ...)] *)
Definition outputFile (args : list string) (hostname iso : string) : string :=
  let outputIndex := indexOf args "--output" in
  match (if (outputIndex =? -1)%Z then None else arg_at args (outputIndex + 1)) with
  | Some v => if truthy v then v else join "reports" (default_report_name hostname iso)
  | None => join "reports" (default_report_name hostname iso)
  end.

End Output.

(** ** Session invariants *)

(** The URLs axe has been run on, in order. *)
Definition analyzed (c : list event) : list string :=
  flat_map (fun e => match e with EvAxe u => [u] | _ => [] end) c.

(** The sizes printed by [console.log("Crawling: ...")]. *)
Definition logged_sizes (c : list event) : list (nat * Z) :=
  flat_map (fun e => match e with EvCrawling _ n m => [(n, m)] | _ => [] end) c.

(** What holds of every state of a session, relative to the platform's URL
    parser [P]. *)
Record Inv (P : string -> option URL) (st : crawler) : Prop := {
  inv_nodup : NoDup (visitedUrls st);
  inv_budget : (Z.of_nat (size st) <= Z.max 0 (maxPages st))%Z;
  inv_scope : forall v, In v (visitedUrls st) ->
      isInternalUrl P (baseUrl st) v = true /\ isWebPage P v = true;
  inv_analyzed_nodup : NoDup (analyzed (console st));
  inv_analyzed_visited : incl (analyzed (console st)) (visitedUrls st);
  inv_results_nodup : NoDup (map url (results st));
  inv_results_visited : incl (map url (results st)) (visitedUrls st);
  inv_logged : forall n m, In (n, m) (logged_sizes (console st)) ->
      (Z.of_nat n <= m)%Z /\ m = maxPages st;
  inv_logged_all : map fst (logged_sizes (console st)) = seq 1 (size st)
}.

(** [st'] extends [st]: same handles and configuration, and the visited
    set, the results and the console only grow at their ends. *)
Definition grows (st st' : crawler) : Prop :=
  browser st' = browser st /\ context st' = context st /\
  baseUrl st' = baseUrl st /\ maxPages st' = maxPages st /\
  (exists l, visitedUrls st' = visitedUrls st ++ l)%list /\
  (exists l, results st' = results st ++ l)%list /\
  (exists l, console st' = console st ++ l)%list.

(** The number of times [u] occurs in a list of strings. *)
Definition count_str (u : string) (l : list string) : nat :=
  length (filter (String.eqb u) l).

(** The state after [visitedUrls.add(n)] and the "Crawling: ..." line. *)
Definition reserved (n : string) (st : crawler) : crawler :=
  let X := set_visited (visitedUrls st ++ [n])%list st in
  set_console (console X ++ [EvCrawling n (size X) (maxPages X)])%list X.

(** The URLs named by the "Crawling: ..." lines, in order. *)
Definition crawled (c : list event) : list string :=
  flat_map (fun e => match e with EvCrawling u _ _ => [u] | _ => [] end) c.

(** [l1] is [l2] with some elements left out, in the same order. *)
Inductive subseq {A} : list A -> list A -> Prop :=
| subseq_nil : subseq [] []
| subseq_skip x l1 l2 : subseq l1 l2 -> subseq l1 (x :: l2)
| subseq_take x l1 l2 : subseq l1 l2 -> subseq (x :: l1) (x :: l2).

(** The order of the session: the "Crawling" lines name the visited URLs,
    the results follow the visiting order, and axe ran on each of them. *)
Record Ord (st : crawler) : Prop := {
  ord_crawled : crawled (console st) = visitedUrls st;
  ord_subseq : subseq (map url (results st)) (visitedUrls st);
  ord_analyzed : incl (map url (results st)) (analyzed (console st))
}.

(** ** Proofs: the state updates *)

Open Scope list_scope.


Lemma browser_set_console c st : browser (set_console c st) = browser st. Proof. reflexivity. Qed.
Lemma context_set_console c st : context (set_console c st) = context st. Proof. reflexivity. Qed.
Lemma visited_set_console c st : visitedUrls (set_console c st) = visitedUrls st. Proof. reflexivity. Qed.
Lemma base_set_console c st : baseUrl (set_console c st) = baseUrl st. Proof. reflexivity. Qed.
Lemma max_set_console c st : maxPages (set_console c st) = maxPages st. Proof. reflexivity. Qed.
Lemma results_set_console c st : results (set_console c st) = results st. Proof. reflexivity. Qed.
Lemma console_set_console c st : console (set_console c st) = c. Proof. reflexivity. Qed.
Lemma browser_set_results r st : browser (set_results r st) = browser st. Proof. reflexivity. Qed.
Lemma context_set_results r st : context (set_results r st) = context st. Proof. reflexivity. Qed.
Lemma visited_set_results r st : visitedUrls (set_results r st) = visitedUrls st. Proof. reflexivity. Qed.
Lemma base_set_results r st : baseUrl (set_results r st) = baseUrl st. Proof. reflexivity. Qed.
Lemma max_set_results r st : maxPages (set_results r st) = maxPages st. Proof. reflexivity. Qed.
Lemma results_set_results r st : results (set_results r st) = r. Proof. reflexivity. Qed.
Lemma console_set_results r st : console (set_results r st) = console st. Proof. reflexivity. Qed.
Lemma browser_set_visited v st : browser (set_visited v st) = browser st. Proof. reflexivity. Qed.
Lemma context_set_visited v st : context (set_visited v st) = context st. Proof. reflexivity. Qed.
Lemma visited_set_visited v st : visitedUrls (set_visited v st) = v. Proof. reflexivity. Qed.
Lemma base_set_visited v st : baseUrl (set_visited v st) = baseUrl st. Proof. reflexivity. Qed.
Lemma max_set_visited v st : maxPages (set_visited v st) = maxPages st. Proof. reflexivity. Qed.
Lemma results_set_visited v st : results (set_visited v st) = results st. Proof. reflexivity. Qed.
Lemma console_set_visited v st : console (set_visited v st) = console st. Proof. reflexivity. Qed.

Lemma analyzed_app c1 c2 : analyzed (c1 ++ c2) = analyzed c1 ++ analyzed c2.
Proof. unfold analyzed. apply flat_map_app. Qed.

Lemma logged_sizes_app c1 c2 : logged_sizes (c1 ++ c2) = logged_sizes c1 ++ logged_sizes c2.
Proof. unfold logged_sizes. apply flat_map_app. Qed.

Create Rewrite HintDb crawler_fields.
#[export] Hint Rewrite browser_set_console context_set_console visited_set_console
  base_set_console max_set_console results_set_console console_set_console
  browser_set_results context_set_results visited_set_results base_set_results
  max_set_results results_set_results console_set_results
  browser_set_visited context_set_visited visited_set_visited base_set_visited
  max_set_visited results_set_visited console_set_visited
  analyzed_app logged_sizes_app : crawler_fields.

Arguments set_console : simpl never.
Arguments set_results : simpl never.
Arguments set_visited : simpl never.

Section InvLemmas.

Variable P : string -> option URL.

Lemma inv_log st e :
  Inv P st -> analyzed [e] = [] -> logged_sizes [e] = [] ->
  Inv P (set_console (console st ++ [e]) st).
Proof.
  intros [] Ha Hl; constructor; autorewrite with crawler_fields; rewrite ?Ha, ?Hl, ?app_nil_r; auto.
Qed.

Lemma inv_log_axe st n :
  Inv P st -> In n (visitedUrls st) -> ~ In n (analyzed (console st)) ->
  Inv P (set_console (console st ++ [EvAxe n]) st).
Proof.
  intros [] Hin Hnot; constructor; autorewrite with crawler_fields; cbn; rewrite ?app_nil_r; auto.
  - apply NoDup_app; auto using NoDup_cons, NoDup_nil.
    intros x Hx [<- | []]; contradiction.
  - intros x Hx; apply in_app_or in Hx as [Hx | [<- | []]]; auto.
Qed.

Lemma inv_push st r :
  Inv P st -> In (url r) (visitedUrls st) -> ~ In (url r) (map url (results st)) ->
  Inv P (set_results (results st ++ [r]) st).
Proof.
  intros [] Hin Hnot; constructor; autorewrite with crawler_fields; auto.
  - rewrite map_app; apply NoDup_app; cbn; auto using NoDup_cons, NoDup_nil.
    intros x Hx [<- | []]; contradiction.
  - rewrite map_app; intros x Hx; apply in_app_or in Hx as [Hx | [<- | []]]; auto.
Qed.

(** Reserving [n] and printing the new size. *)
Lemma inv_reserve st n :
  Inv P st -> ~ In n (visitedUrls st) -> (Z.of_nat (size st) < maxPages st)%Z ->
  isInternalUrl P (baseUrl st) n = true -> isWebPage P n = true ->
  let X := set_visited (visitedUrls st ++ [n]) st in
  Inv P (set_console (console X ++ [EvCrawling n (size X) (maxPages X)]) X).
Proof.
  intros [] Hnot Hlt Hi Hw X; unfold X, size in *; constructor; unfold size;
    autorewrite with crawler_fields; cbn; rewrite ?app_nil_r; auto.
  - apply NoDup_app; auto using NoDup_cons, NoDup_nil.
    intros x Hx [<- | []]; contradiction.
  - rewrite length_app; cbn; lia.
  - intros v Hv; apply in_app_or in Hv as [Hv | [<- | []]]; auto.
  - intros x Hx; apply in_or_app; left; auto.
  - intros x Hx; apply in_or_app; left; auto.
  - intros k m Hk; apply in_app_or in Hk as [Hk | [Hk | []]]; auto.
    injection Hk as <- <-; rewrite length_app; cbn; lia.
  - rewrite map_app, inv_logged_all0, length_app, seq_app; cbn.
    f_equal; f_equal; lia.
Qed.

End InvLemmas.

Lemma grows_refl st : grows st st.
Proof. repeat split; exists []; rewrite app_nil_r; reflexivity. Qed.

Lemma grows_trans st1 st2 st3 : grows st1 st2 -> grows st2 st3 -> grows st1 st3.
Proof.
  intros (? & ? & ? & ? & [v1 ?] & [r1 ?] & [c1 ?]) (? & ? & ? & ? & [v2 ?] & [r2 ?] & [c2 ?]).
  repeat split; try congruence.
  - exists (v1 ++ v2); rewrite app_assoc; congruence.
  - exists (r1 ++ r2); rewrite app_assoc; congruence.
  - exists (c1 ++ c2); rewrite app_assoc; congruence.
Qed.

Lemma grows_console st l : grows st (set_console (console st ++ l) st).
Proof.
  repeat split; autorewrite with crawler_fields;
    first [ exists []; rewrite app_nil_r; reflexivity | eexists; reflexivity ].
Qed.

Lemma grows_results st l : grows st (set_results (results st ++ l) st).
Proof.
  repeat split; autorewrite with crawler_fields;
    first [ exists []; rewrite app_nil_r; reflexivity | eexists; reflexivity ].
Qed.

Lemma grows_visited st l : grows st (set_visited (visitedUrls st ++ l) st).
Proof.
  repeat split; autorewrite with crawler_fields;
    first [ exists []; rewrite app_nil_r; reflexivity | eexists; reflexivity ].
Qed.

(** ** Proofs: every crawl keeps the invariant *)

Ltac inv_solve :=
  repeat match goal with
  | |- Inv _ (set_console (console ?X ++ [EvAxe _]) ?X) =>
      apply inv_log_axe;
      [ | autorewrite with crawler_fields; assumption
        | autorewrite with crawler_fields; cbn; rewrite ?app_nil_r; assumption ]
  | |- Inv _ (set_console (console ?X ++ [_]) ?X) =>
      apply inv_log; [ | reflexivity | reflexivity ]
  | |- Inv _ (set_results (results ?X ++ [_]) ?X) =>
      apply inv_push;
      [ | autorewrite with crawler_fields; cbn; assumption
        | autorewrite with crawler_fields; cbn; assumption ]
  | H : Inv ?P ?X |- Inv ?P ?X => exact H
  end.

Ltac grows_solve :=
  match goal with
  | |- grows ?s ?s => apply grows_refl
  | |- grows ?s (set_console (console ?X ++ _) ?X) =>
      apply (grows_trans s X); [grows_solve | apply grows_console]
  | |- grows ?s (set_results (results ?X ++ _) ?X) =>
      apply (grows_trans s X); [grows_solve | apply grows_results]
  | |- grows ?s (set_visited (visitedUrls ?X ++ _) ?X) =>
      apply (grows_trans s X); [grows_solve | apply grows_visited]
  end.

Section CrawlInv.

Variable P : string -> option URL.
Variable site : string -> page_behaviour.
Variable clock : nat -> string.

(** A crawl step that keeps the invariant, only grows the state, and
    never throws. *)
Definition crawl_ok (c : string -> M unit) : Prop :=
  forall u st, Inv P st ->
    Inv P (fst (c u st)) /\ grows st (fst (c u st)) /\ snd (c u st) = inl tt.

Lemma crawl_links_ok c links :
  crawl_ok c -> forall st, Inv P st ->
    Inv P (fst (crawl_links c links st)) /\ grows st (fst (crawl_links c links st)) /\
    snd (crawl_links c links st) = inl tt.
Proof.
  intros Hc; induction links as [| link rest IH]; intros st Hinv; cbn.
  - auto using grows_refl.
  - destruct (maxPages st <=? Z.of_nat (size st))%Z; cbn; [auto using grows_refl |].
    unfold bind; destruct (Hc link st Hinv) as (Hi1 & Hg1 & Hr1).
    destruct (c link st) as [st1 r1]; cbn in *; subst r1.
    destruct (IH st1 Hi1) as (Hi2 & Hg2 & Hr2); eauto using grows_trans.
Qed.

Lemma crawl_body_ok c n st :
  crawl_ok c -> Inv P st -> In n (visitedUrls st) ->
  ~ In n (analyzed (console st)) -> ~ In n (map url (results st)) ->
  let r := try_catch (crawl_body site clock c n) (fun _ => log (EvCrawlError n)) st in
  Inv P (fst r) /\ grows st (fst r) /\ snd r = inl tt.
Proof.
  intros Hc Hinv Hin Hna Hnr; cbn.
  unfold crawl_body, try_catch, bind, await_ok, await, get, ret, throw, close_page,
    push_result, log.
  destruct (site n) as [np g ax lh ev cl]; cbn.
  destruct np, g, ax as [ax |], lh as [lh |], ev as [ev |], cl; cbn;
    try destruct (_ <? _)%Z; cbn;
    try match goal with
    | |- context [crawl_links c ?links ?X] =>
        assert (HX : Inv P X) by inv_solve;
        assert (HgX : grows st X) by grows_solve;
        destruct (crawl_links_ok c links Hc X HX) as (Hi2 & Hg2 & Hr2);
        destruct (crawl_links c links X) as [st2 [[] | e]]; cbn in *;
        [ eauto using grows_trans | discriminate ]
    end;
    (split; [inv_solve | split; [grows_solve | reflexivity]]).
Qed.

Lemma existsb_eqb_false u l : existsb (String.eqb u) l = false -> ~ In u l.
Proof.
  intros H Hin.
  assert (existsb (String.eqb u) l = true) by
    (apply existsb_exists; exists u; split; [exact Hin | apply String.eqb_refl]).
  congruence.
Qed.

Lemma crawl_f_ok fuel : crawl_ok (crawl_f P site clock fuel).
Proof.
  induction fuel as [| fuel IH]; intros u st Hinv; cbn.
  - destruct (_ || _); cbn; auto using grows_refl.
  - destruct (negb (browser st && context st) || (maxPages st <=? Z.of_nat (size st))%Z)
      eqn:Hg; cbn; [auto using grows_refl |].
    apply orb_false_iff in Hg as [_ Hlt]; apply Z.leb_gt in Hlt.
    set (n := normalizeUrl P u).
    destruct (existsb (String.eqb n) (visitedUrls st)) eqn:Hv; cbn; [auto using grows_refl |].
    destruct (isInternalUrl P (baseUrl st) n) eqn:Hi; cbn; [| auto using grows_refl].
    destruct (isWebPage P n) eqn:Hw; cbn; [| auto using grows_refl].
    unfold bind, add_visited, get, log; rewrite Hv; cbn.
    set (X := set_visited (visitedUrls st ++ [n]) st).
    set (Y := set_console (console X ++ [EvCrawling n (size X) (maxPages X)]) X).
    assert (HY : Inv P Y) by (apply inv_reserve; auto using existsb_eqb_false).
    assert (Hn : ~ In n (visitedUrls st)) by (apply existsb_eqb_false; exact Hv).
    destruct (crawl_body_ok (crawl_f P site clock fuel) n Y IH HY) as (Hi2 & Hg2 & Hr2).
    + unfold Y, X; autorewrite with crawler_fields; apply in_or_app; right; left; reflexivity.
    + unfold Y, X; autorewrite with crawler_fields; cbn; rewrite app_nil_r.
      intros Ha; apply Hn, (inv_analyzed_visited _ _ Hinv); exact Ha.
    + unfold Y, X; autorewrite with crawler_fields.
      intros Hr; apply Hn, (inv_results_visited _ _ Hinv); exact Hr.
    + split; [exact Hi2 | split; [| exact Hr2]].
      apply (grows_trans st Y); [unfold Y, X; grows_solve | exact Hg2].
Qed.

Lemma crawl_ok_top : crawl_ok (crawl P site clock).
Proof. intros u st; apply crawl_f_ok. Qed.

End CrawlInv.

Lemma reachable_inv P st : reachable P st -> Inv P st.
Proof.
  induction 1 as [startUrl m st Hnew | st l c _ IH | st site clock u _ IH].
  - unfold new_crawler in Hnew; destruct (P startUrl); [| discriminate].
    injection Hnew as <-; constructor; cbn.
    + constructor.
    + unfold size; cbn; lia.
    + intros ? [].
    + constructor.
    + intros ? [].
    + constructor.
    + intros ? [].
    + intros ? ? [].
    + reflexivity.
  - destruct IH; constructor; auto.
  - apply (crawl_ok_top P site clock u st IH).
Qed.

Lemma crawl_grows P site clock u st :
  Inv P st -> grows st (fst (crawl P site clock u st)).
Proof. intros H; apply (crawl_ok_top P site clock u st H). Qed.

Lemma count_str_notin u l : ~ In u l -> count_str u l = 0%nat.
Proof.
  unfold count_str; induction l as [| x l IH]; intros H; cbn; [reflexivity |].
  destruct (String.eqb u x) eqn:E.
  - apply String.eqb_eq in E; subst; exfalso; apply H; left; reflexivity.
  - apply IH; intros Hin; apply H; right; exact Hin.
Qed.

Lemma count_str_nodup u l : NoDup l -> (count_str u l <= 1)%nat.
Proof.
  induction 1 as [| x l Hx Hnd IH]; unfold count_str in *; cbn; [lia |].
  destruct (String.eqb u x) eqn:E; cbn; [| exact IH].
  apply String.eqb_eq in E; subst x.
  pose proof (count_str_notin u l Hx) as H0; unfold count_str in H0; lia.
Qed.

(** The URL parser's serialisation round trip at [s]: when [s] parses,
    re-parsing the [href] of the result with its fragment cleared gives
    that URL back. *)
Definition href_roundtrip_at (P : string -> option URL) (s : string) : Prop :=
  forall u, P s = Some u -> P (href (clear_hash u)) = Some (clear_hash u).

(** The round trip at every string. *)
Definition href_roundtrip (P : string -> option URL) : Prop :=
  forall s, href_roundtrip_at P s.

Lemma normalize_classify P b l :
  href_roundtrip_at P l ->
  isInternalUrl P b (normalizeUrl P l) = isInternalUrl P b l /\
  isWebPage P (normalizeUrl P l) = isWebPage P l.
Proof.
  intros Hrt; unfold normalizeUrl, isInternalUrl, isWebPage.
  destruct (P l) as [u |] eqn:E; [| rewrite E; split; reflexivity].
  rewrite (Hrt u E); split; reflexivity.
Qed.

(** ** A concrete environment: a URL table, a small site and a clock *)

Definition URL_eqb (a b : URL) : bool :=
  String.eqb (protocol a) (protocol b) && String.eqb (username a) (username b) &&
  String.eqb (password a) (password b) &&
  match hostname a, hostname b with
  | Some x, Some y => String.eqb x y
  | None, None => true
  | _, _ => false
  end &&
  String.eqb (port a) (port b) && String.eqb (pathname a) (pathname b) &&
  String.eqb (search a) (search b) &&
  match fragment a, fragment b with
  | Some x, Some y => String.eqb x y
  | None, None => true
  | _, _ => false
  end.

Lemma URL_eqb_eq a b : URL_eqb a b = true -> a = b.
Proof.
  destruct a as [? ? ? [h1 |] ? ? ? [x |]], b as [? ? ? [h2 |] ? ? ? [y |]];
    unfold URL_eqb; cbn; intros H;
    repeat match goal with
    | H : _ && _ = true |- _ => apply andb_prop in H as [? ?]
    end;
    repeat match goal with
    | Hs : String.eqb _ _ = true |- _ => apply String.eqb_eq in Hs; subst
    end;
    first [reflexivity | discriminate].
Qed.

(** A URL parser given by a table of the strings it accepts. *)
Definition table_parse (tbl : list (string * URL)) (s : string) : option URL :=
  match find (fun p => String.eqb (fst p) s) tbl with
  | Some (_, u) => Some u
  | None => None
  end.

Definition table_roundtrip_check (tbl : list (string * URL)) : bool :=
  forallb (fun p => match table_parse tbl (href (clear_hash (snd p))) with
                    | Some u' => URL_eqb u' (clear_hash (snd p))
                    | None => false
                    end) tbl.

Lemma table_roundtrip tbl : table_roundtrip_check tbl = true -> href_roundtrip (table_parse tbl).
Proof.
  intros Hc s u Hs; unfold table_parse in Hs.
  destruct (find (fun p => String.eqb (fst p) s) tbl) as [[s' u'] |] eqn:E; [| discriminate].
  injection Hs as <-; apply find_some in E as [Hin _].
  unfold table_roundtrip_check in Hc; rewrite forallb_forall in Hc.
  specialize (Hc _ Hin); cbn [snd] in Hc.
  destruct (table_parse tbl (href (clear_hash u'))) as [v |]; [| discriminate].
  apply URL_eqb_eq in Hc; subst; reflexivity.
Qed.

Definition demo_url (host path : string) (frag : option string) : URL :=
  mkURL "https:" "" "" (Some host) "" path "" frag.

Definition demo_table : list (string * URL) :=
  [("https://example.com", demo_url "example.com" "/" None);
   ("https://example.com/", demo_url "example.com" "/" None);
   ("https://example.com/a", demo_url "example.com" "/a" None);
   ("https://example.com/b", demo_url "example.com" "/b" None);
   ("https://example.com/b#top", demo_url "example.com" "/b" (Some "top"));
   ("https://example.com/c", demo_url "example.com" "/c" None);
   ("https://example.com/x.pdf", demo_url "example.com" "/x.pdf" None);
   ("https://other.com/", demo_url "other.com" "/" None);
   ("https://ex.com/a", demo_url "ex.com" "/a" None);
   ("https://ex.com/a#x", demo_url "ex.com" "/a" (Some "x"));
   ("https://ex.com/a#y", demo_url "ex.com" "/a" (Some "y"))].

Definition demo_parse : string -> option URL := table_parse demo_table.

Definition demo_ok (links : list string) : page_behaviour :=
  mkBehaviour true true (Some (mkAxe [])) (Some None) (Some links) true.

(** The start page links to a page whose navigation fails, to another
    origin, to a PDF, twice to /b (once with a fragment), to /c and to a
    mailto link; /b links back to the start page. *)
Definition demo_site (u : string) : page_behaviour :=
  if String.eqb u "https://example.com/" then
    demo_ok ["https://example.com/a"; "https://other.com/"; "https://example.com/x.pdf";
             "https://example.com/b#top"; "https://example.com/b"; "https://example.com/c";
             "mailto:someone@example.com"]
  else if String.eqb u "https://example.com/a" then
    mkBehaviour true false None None None true
  else if String.eqb u "https://example.com/b" then demo_ok ["https://example.com/"]
  else demo_ok [].

Definition demo_clock (n : nat) : string := "t" ++ nat_to_string n.

Definition demo_start (m : Z) : crawler :=
  match new_crawler demo_parse "https://example.com" m with
  | Some st => initialize true true st
  | None => mkCrawler false false [] "" m [] []
  end.

(** The session after [crawl("https://example.com")] with a budget of 4. *)
Definition demo_session : crawler :=
  fst (crawl demo_parse demo_site demo_clock "https://example.com" (demo_start 4)).

(** Every page loads and is analysed, but reading its links throws. *)
Definition leaky_site (u : string) : page_behaviour :=
  mkBehaviour true true (Some (mkAxe [])) (Some None) None true.

(** [path.join] on POSIX, for two plain segments. *)
Definition demo_join (a b : string) : string := a ++ "/" ++ b.

Lemma demo_start_reachable m : reachable demo_parse (demo_start m).
Proof.
  unfold demo_start; destruct (new_crawler demo_parse "https://example.com" m) eqn:E.
  - apply reach_initialize; eapply reach_new; exact E.
  - vm_compute in E; discriminate.
Qed.

Lemma demo_session_reachable : reachable demo_parse demo_session.
Proof. apply reach_crawl, demo_start_reachable. Qed.

(** ** Claims about the crawl *)

(** C1: in every session whose budget [maxPages] is non-negative, the
    visited set never holds more than [maxPages] URLs: its size is at most
    the budget, each reservation prints the new size ("Crawling: u (n/m)"),
    the printed sizes are exactly 1, 2, ..., the current size (so they are
    all the sizes the set has had), each at most the budget, and once the
    size has reached the budget [crawl] returns before reserving anything. *)
Theorem visited_never_exceeds_budget P st :
  reachable P st -> (0 <= maxPages st)%Z ->
  (Z.of_nat (size st) <= maxPages st)%Z /\
  map fst (logged_sizes (console st)) = seq 1 (size st) /\
  (forall n m, In (n, m) (logged_sizes (console st)) -> (Z.of_nat n <= maxPages st)%Z) /\
  (forall site clock u, (maxPages st <= Z.of_nat (size st))%Z ->
     crawl P site clock u st = (st, inl tt)).
Proof.
  intros Hr H0; destruct (reachable_inv P st Hr) as [? Hb ? ? ? ? ? Hl Hall].
  split; [lia | split; [exact Hall | split]].
  - intros n m Hin; destruct (Hl n m Hin); subst; assumption.
  - intros site clock u Hle; unfold crawl; cbn [crawl_f]; unfold bind, get.
    apply Z.leb_le in Hle; rewrite Hle, orb_true_r; reflexivity.
Qed.

Lemma visited_never_exceeds_budget_witness :
  (0 <= maxPages demo_session)%Z /\ (Z.of_nat (size demo_session) <= maxPages demo_session)%Z.
Proof.
  assert (H0 : (0 <= maxPages demo_session)%Z) by (vm_compute; discriminate).
  split; [exact H0 |].
  apply (visited_never_exceeds_budget demo_parse demo_session demo_session_reachable H0).
Defined.

(** C2: visitation is idempotent: in every session no URL identity is in
    the visited set twice, axe has been run at most once per identity and
    at most one PageResult exists per identity; a crawl only appends to the
    visited set (nothing is removed); and crawling a URL whose canonical
    form is already visited, from whatever discovery path, does nothing. *)
Theorem visitation_idempotent P st :
  reachable P st ->
  NoDup (visitedUrls st) /\
  (forall v, (count_str v (analyzed (console st)) <= 1)%nat) /\
  (forall v, (count_str v (map url (results st)) <= 1)%nat) /\
  (forall site clock u, exists l,
     visitedUrls (fst (crawl P site clock u st)) = visitedUrls st ++ l) /\
  (forall site clock u, In (normalizeUrl P u) (visitedUrls st) ->
     crawl P site clock u st = (st, inl tt)).
Proof.
  intros Hr; pose proof (reachable_inv P st Hr) as Hinv.
  destruct Hinv as [Hnd ? ? Hand ? Hrnd ? ? ?] eqn:Einv.
  split; [exact Hnd | split; [| split; [| split]]].
  - intros v; apply count_str_nodup; exact Hand.
  - intros v; apply count_str_nodup; exact Hrnd.
  - intros site clock u.
    destruct (crawl_grows P site clock u st Hinv) as (_ & _ & _ & _ & Hv & _); exact Hv.
  - intros site clock u Hin; unfold crawl; cbn [crawl_f]; unfold bind, get.
    destruct (_ || _); [reflexivity |].
    assert (existsb (String.eqb (normalizeUrl P u)) (visitedUrls st) = true) as ->
      by (apply existsb_exists; exists (normalizeUrl P u); split;
          [exact Hin | apply String.eqb_refl]).
    reflexivity.
Qed.

(** The demo site links to /b twice (with and without a fragment): axe
    ran on it once. *)
Lemma visitation_idempotent_witness :
  count_str "https://example.com/b" (analyzed (console demo_session)) = 1%nat /\
  (count_str "https://example.com/b" (analyzed (console demo_session)) <= 1)%nat.
Proof.
  split; [vm_compute; reflexivity |].
  apply (proj1 (proj2 (visitation_idempotent demo_parse demo_session demo_session_reachable))).
Defined.

(** C3: when [page.goto] or the axe analysis of a target throws, the
    error is caught: [crawl] resolves, the target's identity stays in the
    visited set, no PageResult is added, "Error crawling" is logged for it,
    and the enclosing [for] loop goes on with the next extracted link. *)
Theorem failed_target_skipped P site clock fuel u st :
  browser st = true -> context st = true ->
  (Z.of_nat (size st) < maxPages st)%Z ->
  ~ In (normalizeUrl P u) (visitedUrls st) ->
  isInternalUrl P (baseUrl st) (normalizeUrl P u) = true ->
  isWebPage P (normalizeUrl P u) = true ->
  goto_ok (site (normalizeUrl P u)) = false \/ axe_outcome (site (normalizeUrl P u)) = None ->
  exists st',
    crawl_f P site clock (S fuel) u st = (st', inl tt) /\
    visitedUrls st' = visitedUrls st ++ [normalizeUrl P u] /\
    results st' = results st /\
    In (EvCrawlError (normalizeUrl P u)) (console st') /\
    (forall rest,
       crawl_links (crawl_f P site clock (S fuel)) (u :: rest) st =
       crawl_links (crawl_f P site clock (S fuel)) rest st').
Proof.
  intros Hb Hc Hlt Hnv Hi Hw Hfail.
  assert (Hex : existsb (String.eqb (normalizeUrl P u)) (visitedUrls st) = false).
  { destruct (existsb _ _) eqn:E; [| reflexivity].
    apply existsb_exists in E as (x & Hx & Ex); apply String.eqb_eq in Ex; subst; contradiction. }
  assert (Hg : (maxPages st <=? Z.of_nat (size st))%Z = false) by (apply Z.leb_gt; exact Hlt).
  assert (exists st', crawl_f P site clock (S fuel) u st = (st', inl tt) /\
    visitedUrls st' = visitedUrls st ++ [normalizeUrl P u] /\ results st' = results st /\
    In (EvCrawlError (normalizeUrl P u)) (console st')) as (st' & Heq & Hv & Hr & Hl).
  { cbn [crawl_f]; unfold bind, get; rewrite Hb, Hc, Hg; cbn.
    rewrite Hex, Hi, Hw; cbn.
    unfold add_visited, log; rewrite Hex; cbn.
    unfold crawl_body, try_catch, bind, await_ok, await, get, ret, throw, log.
    destruct (site (normalizeUrl P u)) as [np g ax lh ev cl]; cbn in Hfail |- *.
    destruct np, Hfail as [-> | ->]; cbn; try destruct g; cbn;
      (eexists; split; [reflexivity |]);
      autorewrite with crawler_fields;
      (split; [reflexivity | split; [reflexivity |]]);
      apply in_or_app; right; left; reflexivity. }
  exists st'; split; [exact Heq | split; [exact Hv | split; [exact Hr | split; [exact Hl |]]]].
  intros rest; cbn [crawl_links]; unfold bind, get; rewrite Hg, Heq; reflexivity.
Qed.

(** On the demo site the navigation to /a fails. *)
Lemma failed_target_skipped_witness :
  exists st',
    crawl_f demo_parse demo_site demo_clock 4 "https://example.com/a" (demo_start 4)
      = (st', inl tt) /\
    visitedUrls st' = visitedUrls (demo_start 4) ++ ["https://example.com/a"] /\
    results st' = results (demo_start 4) /\
    In (EvCrawlError "https://example.com/a") (console st') /\
    (forall rest,
       crawl_links (crawl_f demo_parse demo_site demo_clock 4) ("https://example.com/a" :: rest)
         (demo_start 4) =
       crawl_links (crawl_f demo_parse demo_site demo_clock 4) rest st').
Proof.
  apply (failed_target_skipped demo_parse demo_site demo_clock 3 "https://example.com/a"
           (demo_start 4));
    [ vm_compute; reflexivity | vm_compute; reflexivity | vm_compute; reflexivity
    | vm_compute; intros [] | vm_compute; reflexivity | vm_compute; reflexivity
    | left; vm_compute; reflexivity ].
Defined.

(** C8: whatever the discovery order, a URL of another origin, or whose
    path ends in a deny-listed extension, is never reserved, analysed or
    reported (its canonical form is in none of the visited set, the axe
    runs and the results), given that the platform parser re-parses the
    serialisation of [l]'s parse to itself; and a URL the parser rejects
    classifies as out of scope and as document-like. *)
Theorem out_of_scope_never_reserved P st l :
  href_roundtrip_at P l -> reachable P st ->
  isInternalUrl P (baseUrl st) l = false \/ isWebPage P l = false ->
  ~ In (normalizeUrl P l) (visitedUrls st) /\
  ~ In (normalizeUrl P l) (analyzed (console st)) /\
  ~ In (normalizeUrl P l) (map url (results st)) /\
  (forall b s, P s = None -> isInternalUrl P b s = false /\ isWebPage P s = true).
Proof.
  intros Hrt Hr Hout; destruct (reachable_inv P st Hr) as [_ _ Hsc _ Han _ Hres _ _].
  destruct (normalize_classify P (baseUrl st) l Hrt) as [Ei Ew].
  assert (Hnv : ~ In (normalizeUrl P l) (visitedUrls st)).
  { intros Hin; destruct (Hsc _ Hin) as [Hi Hw]; rewrite Ei in Hi; rewrite Ew in Hw.
    destruct Hout; congruence. }
  split; [exact Hnv | split; [| split]].
  - intros Hin; apply Hnv, Han, Hin.
  - intros Hin; apply Hnv, Hres, Hin.
  - intros b s Hs; unfold isInternalUrl, isWebPage; rewrite Hs; split; reflexivity.
Qed.

Lemma out_of_scope_never_reserved_witness :
  ~ In "https://other.com/" (visitedUrls demo_session) /\
  ~ In "https://example.com/x.pdf" (visitedUrls demo_session).
Proof.
  pose proof (table_roundtrip demo_table eq_refl) as Hrt.
  split.
  - apply (out_of_scope_never_reserved demo_parse demo_session "https://other.com/"
             (Hrt "https://other.com/") demo_session_reachable); left; vm_compute; reflexivity.
  - apply (out_of_scope_never_reserved demo_parse demo_session "https://example.com/x.pdf"
             (Hrt "https://example.com/x.pdf") demo_session_reachable);
      right; vm_compute; reflexivity.
Defined.

(** C9: [normalizeUrl] clears the fragment of every URL the parser
    accepts, so two URLs that differ only in their fragment get the same
    canonical string; a string the parser rejects is returned unchanged. *)
Theorem normalize_strips_fragment P :
  (forall s u, P s = Some u ->
     normalizeUrl P s = href (clear_hash u) /\ fragment (clear_hash u) = None) /\
  (forall s1 s2 u1 u2, P s1 = Some u1 -> P s2 = Some u2 -> same_but_fragment u1 u2 ->
     normalizeUrl P s1 = normalizeUrl P s2) /\
  (forall s, P s = None -> normalizeUrl P s = s).
Proof.
  split; [| split].
  - intros s u Hs; unfold normalizeUrl; rewrite Hs; split; reflexivity.
  - intros s1 s2 u1 u2 H1 H2 (Hp & Hu & Hpw & Hh & Hpo & Hpa & Hs).
    unfold normalizeUrl; rewrite H1, H2; unfold clear_hash.
    rewrite Hp, Hu, Hpw, Hh, Hpo, Hpa, Hs; reflexivity.
  - intros s Hs; unfold normalizeUrl; rewrite Hs; reflexivity.
Qed.

(** The spec's example. *)
Lemma normalize_strips_fragment_witness :
  normalizeUrl demo_parse "https://ex.com/a#x" = normalizeUrl demo_parse "https://ex.com/a#y" /\
  normalizeUrl demo_parse "https://ex.com/a#x" = "https://ex.com/a".
Proof.
  split.
  - apply (proj1 (proj2 (normalize_strips_fragment demo_parse)))
      with (u1 := demo_url "ex.com" "/a" (Some "x")) (u2 := demo_url "ex.com" "/a" (Some "y"));
      [vm_compute; reflexivity | vm_compute; reflexivity | repeat split].
  - vm_compute; reflexivity.
Defined.




(** ** Claims about the report *)

Definition has_some_impact (v : Violation) : bool :=
  match impact v with Some _ => true | None => false end.

Lemma byImpact_count vs :
  length (concat (map snd (byImpact vs))) = length (filter has_some_impact vs).
Proof.
  unfold byImpact; cbn [map snd concat]; rewrite app_nil_r, !length_app.
  unfold has_some_impact, has_impact.
  induction vs as [| v vs IH]; [reflexivity |].
  cbn [filter]; destruct (impact v) as [[] |]; cbn [ImpactValue_eqb length]; lia.
Qed.

(** C4, as stated: a violation whose impact is absent is in none of the
    four groups, so the group counts (0) do not add up to the page's
    violation count (1), and the rendered section lists no violation. *)
Lemma severity_grouping_misses_absent_impact :
  let v := mkViolation "image-alt" "Images must have alternate text" "d" "https://dequeuniversity.com/rules/axe/image-alt" None [] in
  length (concat (map snd (byImpact [v]))) = 0%nat /\
  length [v] = 1%nat /\
  (forall i g, In (i, g) (byImpact [v]) -> ~ In v g) /\
  render_axe (mkAxe [v]) = ("### Axe-core Violations (1)" ++ nl ++ nl)%string.
Proof.
  cbv zeta; split; [reflexivity | split; [reflexivity | split]].
  - intros i g Hin; cbn in Hin.
    repeat (destruct Hin as [Hin | Hin]; [injection Hin as <- <-; intros [] |]); destruct Hin.
  - vm_compute; reflexivity.
Qed.

(** C4, amended: the four groups are disjoint and cover exactly the
    violations that carry an impact: a violation is in the group of level
    [i] iff its impact is [i]; the groups are the four levels, each once;
    and the group counts add up to the number of violations with an
    impact.  A violation without impact is in no group. *)
Theorem severity_groups_partition_impacted vs :
  (forall i g v, In (i, g) (byImpact vs) -> (In v g <-> In v vs /\ impact v = Some i)) /\
  map fst (byImpact vs) = [critical; serious; moderate; minor] /\
  length (concat (map snd (byImpact vs))) = length (filter has_some_impact vs).
Proof.
  split; [| split; [reflexivity | apply byImpact_count]].
  intros i g v Hin; cbn in Hin.
  assert (Hf : forall j, In v (filter (has_impact j) vs) <-> In v vs /\ impact v = Some j).
  { intros j; rewrite filter_In; unfold has_impact.
    destruct (impact v) as [k |]; [| split; [intros [_ ?]; discriminate | intros [_ ?]; discriminate]].
    destruct j, k; cbn; split; intros [? H]; split; auto; try discriminate; congruence. }
  repeat (destruct Hin as [Hin | Hin]; [injection Hin as <- <-; apply Hf |]); destruct Hin.
Qed.

Lemma string_append_cancel_l (p a b : string) :
  (p ++ a)%string = (p ++ b)%string -> a = b.
Proof. induction p as [| c p IH]; cbn; [auto | intros H; injection H; auto]. Qed.

(** C5, as stated: two renders of the same session at different wall-clock
    readings differ (in the "Generated" line). *)
Lemma report_differs_with_wall_clock :
  generateMarkdownReport (fun s => s) (fun _ _ => "0") "1/1/2026, 10:00:00 AM" demo_session <>
  generateMarkdownReport (fun s => s) (fun _ _ => "0") "1/1/2026, 10:00:01 AM" demo_session.
Proof.
  unfold generateMarkdownReport.
  intros H; apply string_append_cancel_l in H.
  cbn [String.append] in H; discriminate H.
Qed.

(** C5, amended: the report is a function of the session's results list
    (URLs, stored timestamps, analysis data) and of the wall-clock reading
    [now] taken for the "Generated" line: sessions with the same results
    give, at every reading, the header, that reading, and one and the same
    remainder, which depends neither on the clock nor on the rest of the
    session state. *)
Theorem report_determined_by_results_and_clock dateToLocaleString toFixed st1 st2 :
  results st1 = results st2 ->
  exists body, forall now,
    generateMarkdownReport dateToLocaleString toFixed now st1 = (report_header ++ now ++ nl ++ body)%string /\
    generateMarkdownReport dateToLocaleString toFixed now st2 = (report_header ++ now ++ nl ++ body)%string.
Proof.
  intros Hr; exists (report_body dateToLocaleString toFixed (results st1)); intros now.
  unfold generateMarkdownReport; rewrite Hr; split; reflexivity.
Qed.

Lemma report_determined_by_results_and_clock_witness :
  results demo_session = results (set_console [] demo_session) /\
  exists body, forall now,
    generateMarkdownReport (fun s => s) (fun _ _ => "0") now demo_session = (report_header ++ now ++ nl ++ body)%string /\
    generateMarkdownReport (fun s => s) (fun _ _ => "0") now (set_console [] demo_session) = (report_header ++ now ++ nl ++ body)%string.
Proof.
  split; [reflexivity |].
  apply (report_determined_by_results_and_clock (fun s => s) (fun _ _ => "0") demo_session (set_console [] demo_session)).
  reflexivity.
Defined.

(** ** Claims about cleanup *)

Lemma set_console_twice c1 c2 st :
  set_console c2 (set_console c1 st) = set_console c2 st.
Proof. destruct st; reflexivity. Qed.




(** ** Claims about the [--max-pages] option *)

Lemma indexOf_absent l x : ~ In x l -> indexOf l x = (-1)%Z.
Proof.
  induction l as [| y l IH]; cbn; [reflexivity |].
  intros Hn; destruct (String.eqb_spec y x) as [-> | _]; [tauto |].
  rewrite IH by tauto; reflexivity.
Qed.

Lemma indexOf_first pre x rest :
  ~ In x pre -> indexOf (pre ++ x :: rest) x = Z.of_nat (length pre).
Proof.
  induction pre as [| y pre IH]; cbn.
  - rewrite String.eqb_refl; reflexivity.
  - intros Hn; destruct (String.eqb_spec y x) as [-> | _]; [tauto |].
    rewrite IH by tauto; destruct (Z.eqb_spec (Z.of_nat (length pre)) (-1)); lia.
Qed.

Lemma arg_at_after pre x v post :
  arg_at (pre ++ x :: v :: post) (Z.of_nat (length pre) + 1) = Some v.
Proof.
  unfold arg_at; destruct (Z.ltb_spec (Z.of_nat (length pre) + 1) 0); [lia |].
  replace (Z.to_nat (Z.of_nat (length pre) + 1)) with (length pre + 1)%nat by lia.
  rewrite nth_error_app2 by lia; replace (length pre + 1 - length pre)%nat with 1%nat by lia.
  reflexivity.
Qed.

Lemma arg_at_end pre x :
  arg_at (pre ++ [x]) (Z.of_nat (length pre) + 1) = None.
Proof.
  unfold arg_at; destruct (Z.ltb_spec (Z.of_nat (length pre) + 1) 0); [lia |].
  apply nth_error_None; rewrite length_app; cbn; lia.
Qed.

Lemma round_nonneg_exact x : (0 <= x <= 2 ^ 53)%Z -> round_nonneg x = Finite x.
Proof.
  intros [H0 H1].
  destruct (Z.eq_dec x (2 ^ 53)) as [-> | Hne]; [vm_compute; reflexivity |].
  unfold round_nonneg.
  assert (Hk : (Z.log2 x - 52 <=? 0)%Z = true).
  { apply Z.leb_le; destruct (Z.eq_dec x 0) as [-> | Hx0]; [cbn; lia |].
    assert (Z.log2 x < 53)%Z by (apply Z.log2_lt_pow2; lia); lia. }
  rewrite Hk.
  assert (Hp : (2 ^ 53 < 2 ^ 1024)%Z) by (apply Z.pow_lt_mono_r; lia).
  rewrite Z.shiftl_1_l.
  destruct (Z.leb_spec (2 ^ 1024) x); [lia | reflexivity].
Qed.

(** Integers of magnitude at most [2^53] are exact doubles. *)
Lemma number_of_Z_exact z : (Z.abs z <= 2 ^ 53)%Z -> number_of_Z z = Finite z.
Proof.
  intros Hz; unfold number_of_Z.
  destruct (Z.ltb_spec z 0).
  - rewrite round_nonneg_exact by lia; f_equal; lia.
  - apply round_nonneg_exact; lia.
Qed.

(** C7, as stated: the numeric value 0 gives the budget 10, not 0; the
    numeric value -5 gives the negative budget -5; 9007199254740993 gives
    the budget 9007199254740992 (the nearest double); and 2 followed by
    308 zeros gives the budget Infinity. *)
Lemma max_pages_zero_and_negative :
  parseInt "0" = Some (Finite 0) /\
  maxPages_of_args ["https://example.com"; "--max-pages"; "0"] = Finite 10 /\
  parseInt "-5" = Some (Finite (-5)) /\
  maxPages_of_args ["https://example.com"; "--max-pages"; "-5"] = Finite (-5) /\
  maxPages_of_args ["https://example.com"; "--max-pages"; "9007199254740993"]
    = Finite 9007199254740992 /\
  maxPages_of_args ["https://example.com"; "--max-pages";
                    ("2" ++ String.concat "" (repeat "0" 308))%string] = Infinity false.
Proof. vm_compute; repeat split. Qed.

(** C7, amended: when the first [--max-pages] is followed by an argument
    [v], the budget is [parseInt(v)] when [v] is non-empty and [parseInt(v)]
    is a number other than 0, and 10 when [v] is empty, [parseInt(v)] is
    NaN or [parseInt(v)] is 0; with no [--max-pages], or nothing after it,
    the budget is 10.  So the budget is never 0 (nor NaN); [parseInt]
    gives the double nearest to the integer it reads, which is that
    integer when its magnitude is at most [2^53], and which may be
    negative, rounded or infinite. *)
Theorem max_pages_budget :
  (forall pre v post n, ~ In "--max-pages" pre -> v <> "" -> parseInt v = Some n ->
     number_truthy n = true ->
     maxPages_of_args (pre ++ "--max-pages" :: v :: post) = n) /\
  (forall pre v post, ~ In "--max-pages" pre ->
     (v = "" \/ parseInt v = None \/ parseInt v = Some (Finite 0)) ->
     maxPages_of_args (pre ++ "--max-pages" :: v :: post) = Finite 10) /\
  (forall args, ~ In "--max-pages" args -> maxPages_of_args args = Finite 10) /\
  (forall pre, ~ In "--max-pages" pre -> maxPages_of_args (pre ++ ["--max-pages"]) = Finite 10) /\
  (forall args, maxPages_of_args args <> Finite 0) /\
  (forall z, (Z.abs z <= 2 ^ 53)%Z -> number_of_Z z = Finite z).
Proof.
  split; [| split; [| split; [| split; [| split]]]].
  - intros pre v post n Hpre Hv Hp Hn; unfold maxPages_of_args.
    rewrite indexOf_first by exact Hpre.
    destruct (Z.eqb_spec (Z.of_nat (length pre)) (-1)); [lia |].
    rewrite arg_at_after; unfold truthy.
    destruct (String.eqb_spec v ""); [contradiction |]; cbn [negb].
    rewrite Hp, Hn; reflexivity.
  - intros pre v post Hpre Hv; unfold maxPages_of_args.
    rewrite indexOf_first by exact Hpre.
    destruct (Z.eqb_spec (Z.of_nat (length pre)) (-1)); [lia |].
    rewrite arg_at_after; unfold truthy.
    destruct Hv as [-> | [Hp | Hp]]; [reflexivity | |];
      destruct (String.eqb v ""); cbn [negb]; rewrite ?Hp; reflexivity.
  - intros args Hn; unfold maxPages_of_args; rewrite indexOf_absent by exact Hn; reflexivity.
  - intros pre Hpre; unfold maxPages_of_args.
    replace (pre ++ ["--max-pages"]) with (pre ++ "--max-pages" :: []) by reflexivity.
    rewrite indexOf_first by exact Hpre.
    destruct (Z.eqb_spec (Z.of_nat (length pre)) (-1)); [lia |].
    rewrite arg_at_end; reflexivity.
  - intros args; unfold maxPages_of_args.
    destruct (_ =? -1)%Z; [discriminate |].
    destruct (arg_at _ _) as [v |]; [| discriminate].
    destruct (truthy v); [| discriminate].
    destruct (parseInt v) as [n |]; [| discriminate].
    destruct (number_truthy n) eqn:Hn; [| discriminate].
    intros ->; discriminate Hn.
  - exact number_of_Z_exact.
Qed.

Lemma max_pages_budget_witness :
  parseInt "20" = Some (Finite 20) /\
  maxPages_of_args ["https://example.com"; "--max-pages"; "20"] = Finite 20.
Proof.
  assert (Hp : parseInt "20" = Some (Finite 20)) by (vm_compute; reflexivity).
  split; [exact Hp |].
  apply (proj1 max_pages_budget [ "https://example.com" ] "20" [] (Finite 20)).
  - intros [H | []]; discriminate.
  - discriminate.
  - exact Hp.
  - reflexivity.
Defined.

(** ** Further properties of the crawl, the report and the command line *)

Lemma crawl_f_reserves P site clock fuel u st :
  browser st = true -> context st = true -> (Z.of_nat (size st) < maxPages st)%Z ->
  ~ In (normalizeUrl P u) (visitedUrls st) ->
  isInternalUrl P (baseUrl st) (normalizeUrl P u) = true ->
  isWebPage P (normalizeUrl P u) = true ->
  crawl_f P site clock (S fuel) u st =
  try_catch (crawl_body site clock (crawl_f P site clock fuel) (normalizeUrl P u))
    (fun _ => log (EvCrawlError (normalizeUrl P u)))
    (reserved (normalizeUrl P u) st).
Proof.
  intros Hb Hc Hlt Hn Hi Hw.
  assert (Hex : existsb (String.eqb (normalizeUrl P u)) (visitedUrls st) = false).
  { destruct (existsb _ _) eqn:E; [| reflexivity].
    apply existsb_exists in E as (x & Hx & Ex); apply String.eqb_eq in Ex; subst; contradiction. }
  assert (Hg : (maxPages st <=? Z.of_nat (size st))%Z = false) by (apply Z.leb_gt; exact Hlt).
  cbn [crawl_f]; unfold bind, get; rewrite Hb, Hc, Hg; cbn.
  rewrite Hex, Hi, Hw; cbn.
  unfold add_visited, log; rewrite Hex; reflexivity.
Qed.

Lemma reserved_inv P st n :
  Inv P st -> ~ In n (visitedUrls st) -> (Z.of_nat (size st) < maxPages st)%Z ->
  isInternalUrl P (baseUrl st) n = true -> isWebPage P n = true ->
  Inv P (reserved n st) /\ In n (visitedUrls (reserved n st)) /\
  ~ In n (analyzed (console (reserved n st))) /\ ~ In n (map url (results (reserved n st))).
Proof.
  intros Hinv Hn Hlt Hi Hw; split; [apply inv_reserve; assumption |].
  unfold reserved; autorewrite with crawler_fields; cbn; rewrite ?app_nil_r.
  split; [apply in_or_app; right; left; reflexivity |].
  split; intros H; apply Hn.
  - apply (inv_analyzed_visited _ _ Hinv); exact H.
  - apply (inv_results_visited _ _ Hinv); exact H.
Qed.

(** After the constructor and a successful [initialize], crawling the start
    URL with a budget of at least 1 reserves its canonical form first and
    logs it as page 1 of the budget; when the start URL looks like a file
    download, the crawl changes nothing.  Both hold when the parser
    re-parses the serialisation of the start URL's parse to itself. *)
Lemma start_url_reserved_first P site clock s m st0 :
  href_roundtrip_at P s -> new_crawler P s m = Some st0 -> (1 <= m)%Z ->
  (isWebPage P s = true ->
     exists vs c,
       visitedUrls (fst (crawl P site clock s (initialize true true st0))) = normalizeUrl P s :: vs /\
       console (fst (crawl P site clock s (initialize true true st0)))
         = EvCrawling (normalizeUrl P s) 1 m :: c) /\
  (isWebPage P s = false ->
     crawl P site clock s (initialize true true st0) = (initialize true true st0, inl tt)).
Proof.
  intros Hrt Hnew Hm.
  assert (Hreach : reachable P (initialize true true st0))
    by (apply reach_initialize; eapply reach_new; exact Hnew).
  pose proof (reachable_inv P _ Hreach) as Hinv.
  unfold new_crawler in Hnew; destruct (P s) as [u |] eqn:Ps; [| discriminate].
  injection Hnew as <-.
  destruct (normalize_classify P (origin P u) s Hrt) as [Ei Ew].
  assert (Hint : isInternalUrl P (origin P u) s = true)
    by (unfold isInternalUrl; rewrite Ps; apply String.eqb_refl).
  unfold crawl; cbn [maxPages initialize].
  destruct (Z.to_nat m) as [| k] eqn:Ek; [lia |].
  split.
  - intros Hw.
    rewrite crawl_f_reserves by (cbn; unfold size; cbn; (lia || auto || congruence)).
    destruct (reserved_inv P _ (normalizeUrl P s) Hinv) as (HY & Hin & Hna & Hnr);
      [cbn; auto | unfold size; cbn; lia | cbn; congruence | congruence |].
    destruct (crawl_body_ok P site clock (crawl_f P site clock (S k)) _ _
                (crawl_f_ok P site clock (S k)) HY Hin Hna Hnr)
      as (_ & (_ & _ & _ & _ & [vs Hv] & _ & [c Hc]) & _).
    exists vs, c; rewrite Hv, Hc; split; reflexivity.
  - intros Hw; cbn [crawl_f]; unfold bind, get; cbn.
    replace (m <=? 0)%Z with false by (symmetry; apply Z.leb_gt; lia); cbn.
    rewrite Ei, Ew, Hint, Hw; reflexivity.
Qed.

(** A fresh in-scope target whose page opens, loads and passes axe gets its
    result appended right after the existing results, holding axe's output
    and Lighthouse's result (null when Lighthouse threw, which is then
    logged), whatever happens afterwards. *)
Lemma loaded_page_is_reported P site clock fuel u st ax :
  reachable P st -> browser st = true -> context st = true ->
  (Z.of_nat (size st) < maxPages st)%Z ->
  ~ In (normalizeUrl P u) (visitedUrls st) ->
  isInternalUrl P (baseUrl st) (normalizeUrl P u) = true ->
  isWebPage P (normalizeUrl P u) = true ->
  newPage_ok (site (normalizeUrl P u)) = true ->
  goto_ok (site (normalizeUrl P u)) = true ->
  axe_outcome (site (normalizeUrl P u)) = Some ax ->
  exists st' ts rest,
    crawl_f P site clock (S fuel) u st = (st', inl tt) /\
    results st' = results st ++ mkPageResult (normalizeUrl P u) ax
      (match lighthouse_outcome (site (normalizeUrl P u)) with Some o => o | None => None end)
      ts :: rest /\
    (lighthouse_outcome (site (normalizeUrl P u)) = None ->
       In (EvLighthouseError (normalizeUrl P u)) (console st')).
Proof.
  intros Hr Hb Hc Hlt Hn Hi Hw Hnp Hg Hax.
  pose proof (reachable_inv P st Hr) as Hinv.
  rewrite crawl_f_reserves by assumption.
  set (n := normalizeUrl P u) in *.
  destruct (reserved_inv P st n Hinv Hn Hlt Hi Hw) as (HY & Hin & Hna & Hnr).
  set (Y := reserved n st) in *.
  assert (HrY : results Y = results st) by reflexivity.
  clearbody Y.
  pose proof (crawl_f_ok P site clock fuel) as Hc'.
  unfold crawl_body, try_catch, bind, await_ok, await, get, ret, throw, close_page,
    push_result, log.
  destruct (site n) as [np g ax' lh ev cl]; cbn in Hnp, Hg, Hax |- *; subst np g ax'.
  destruct lh as [lh |], ev as [ev |], cl; cbn;
    try destruct (_ <? _)%Z; cbn;
    first
    [ match goal with
      | |- context [crawl_links ?c ?links ?X] =>
          assert (HX : Inv P X) by inv_solve;
          destruct (crawl_links_ok P c links Hc' X HX)
            as (_ & (_ & _ & _ & _ & _ & [rest Hres] & [cl' Hcl]) & Hr2);
          destruct (crawl_links c links X) as [st2 [[] | e]]; cbn in *; [| discriminate];
          exists st2; do 2 eexists; split; [reflexivity |];
          rewrite Hres, Hcl; autorewrite with crawler_fields; rewrite HrY;
          split; [rewrite <- app_assoc; reflexivity |];
          intros H; try discriminate;
          rewrite <- !app_assoc; apply in_or_app; right; cbn; auto 10
      end
    | do 3 eexists; split; [reflexivity |];
      autorewrite with crawler_fields; rewrite HrY;
      split; [rewrite ?app_nil_r; reflexivity |];
      intros H; try discriminate;
      rewrite <- !app_assoc; apply in_or_app; right; cbn; auto 10 ].
Qed.

Lemma size_reserved n st : size (reserved n st) = S (size st).
Proof. unfold reserved, size; autorewrite with crawler_fields; rewrite length_app; cbn; lia. Qed.

(** With room for more pages, when reading the links or closing the page
    throws after the result was pushed, the page is reported but none of its
    links is crawled and the error is logged; when reading the links threw,
    the page is never closed. *)
Lemma extraction_failure_drops_links P site clock fuel u st ax :
  browser st = true -> context st = true ->
  (Z.of_nat (size st) + 1 < maxPages st)%Z ->
  ~ In (normalizeUrl P u) (visitedUrls st) ->
  isInternalUrl P (baseUrl st) (normalizeUrl P u) = true ->
  isWebPage P (normalizeUrl P u) = true ->
  newPage_ok (site (normalizeUrl P u)) = true ->
  goto_ok (site (normalizeUrl P u)) = true ->
  axe_outcome (site (normalizeUrl P u)) = Some ax ->
  evaluate_outcome (site (normalizeUrl P u)) = None \/ close_ok (site (normalizeUrl P u)) = false ->
  exists st' r evs,
    crawl_f P site clock (S fuel) u st = (st', inl tt) /\
    visitedUrls st' = visitedUrls st ++ [normalizeUrl P u] /\
    results st' = results st ++ [r] /\ url r = normalizeUrl P u /\
    console st' = console st ++ evs /\
    In (EvCrawlError (normalizeUrl P u)) evs /\
    (evaluate_outcome (site (normalizeUrl P u)) = None -> ~ In (EvClosePage (normalizeUrl P u)) evs).
Proof.
  intros Hb Hc Hlt Hn Hi Hw Hnp Hg Hax Hfail.
  rewrite crawl_f_reserves by (assumption || lia).
  set (n := normalizeUrl P u) in *.
  assert (Hs : (Z.of_nat (length (visitedUrls (reserved n st))) <? maxPages (reserved n st))%Z = true)
    by (change (length (visitedUrls (reserved n st))) with (size (reserved n st)); rewrite size_reserved; apply Z.ltb_lt; unfold reserved; autorewrite with crawler_fields; lia).
  unfold crawl_body, try_catch, bind, await_ok, await, get, ret, throw, close_page,
    push_result, log.
  destruct (site n) as [np g ax' lh ev cl]; cbn in Hnp, Hg, Hax, Hfail |- *; subst np g ax'.
  destruct lh as [lh |], ev as [ev |], cl; cbn; (destruct Hfail as [Hf | Hf]; [try discriminate Hf | try discriminate Hf]);
    unfold size; autorewrite with crawler_fields; rewrite Hs; cbn;
    do 3 eexists; (split; [reflexivity |]); unfold reserved; autorewrite with crawler_fields;
    (split; [reflexivity |]); (split; [reflexivity |]); (split; [reflexivity |]);
    rewrite <- !app_assoc; (split; [reflexivity |]); cbn;
    (split; [auto 20 |]); intros H; try discriminate H;
    intros Hin; repeat (destruct Hin as [Hin | Hin]; [discriminate Hin |]); exact Hin.
Qed.

(** When reserving a target uses up the last page of the budget, its page is
    analysed, reported and closed, but its links are never read. *)
Lemma last_page_not_scanned P site clock fuel u st ax :
  browser st = true -> context st = true ->
  (Z.of_nat (size st) + 1 = maxPages st)%Z ->
  ~ In (normalizeUrl P u) (visitedUrls st) ->
  isInternalUrl P (baseUrl st) (normalizeUrl P u) = true ->
  isWebPage P (normalizeUrl P u) = true ->
  newPage_ok (site (normalizeUrl P u)) = true ->
  goto_ok (site (normalizeUrl P u)) = true ->
  axe_outcome (site (normalizeUrl P u)) = Some ax ->
  exists st' r evs,
    crawl_f P site clock (S fuel) u st = (st', inl tt) /\
    visitedUrls st' = visitedUrls st ++ [normalizeUrl P u] /\
    results st' = results st ++ [r] /\ url r = normalizeUrl P u /\
    console st' = console st ++ evs /\
    ~ In (EvExtractLinks (normalizeUrl P u)) evs /\
    In (EvClosePage (normalizeUrl P u)) evs.
Proof.
  intros Hb Hc Hlt Hn Hi Hw Hnp Hg Hax.
  rewrite crawl_f_reserves by (assumption || lia).
  set (n := normalizeUrl P u) in *.
  assert (Hs : (Z.of_nat (length (visitedUrls (reserved n st))) <? maxPages (reserved n st))%Z = false)
    by (change (length (visitedUrls (reserved n st))) with (size (reserved n st)); rewrite size_reserved; apply Z.ltb_ge; unfold reserved; autorewrite with crawler_fields; lia).
  unfold crawl_body, try_catch, bind, await_ok, await, get, ret, throw, close_page,
    push_result, log.
  destruct (site n) as [np g ax' lh ev cl]; cbn in Hnp, Hg, Hax |- *; subst np g ax'.
  destruct lh as [lh |], cl; cbn;
    unfold size; autorewrite with crawler_fields; rewrite Hs; cbn;
    do 3 eexists; (split; [reflexivity |]); unfold reserved; autorewrite with crawler_fields;
    (split; [reflexivity |]); (split; [reflexivity |]); (split; [reflexivity |]);
    rewrite <- !app_assoc; (split; [reflexivity |]); cbn;
    (split; [| auto 20]);
    intros Hin; repeat (destruct Hin as [Hin | Hin]; [discriminate Hin |]); exact Hin.
Qed.

Lemma crawl_links_ext c c' links st :
  (forall h s, In h links -> c h s = c' h s) ->
  crawl_links c links st = crawl_links c' links st.
Proof.
  revert st; induction links as [| l rest IH]; intros st Hcc; cbn; [reflexivity |].
  unfold bind, get; destruct (_ <=? _)%Z; [reflexivity |].
  rewrite (Hcc l st (or_introl eq_refl)).
  destruct (c' l st) as [st1 [[] | e]]; [| reflexivity].
  apply IH; intros h s Hh; apply Hcc; right; exact Hh.
Qed.

(** Of the hrefs of a page, only those that start with http reach the
    recursive crawl: what it would do on any other string never matters. *)
Lemma only_http_links_followed site clock c c' n :
  (forall h st, startsWith h "http" = true -> c h st = c' h st) ->
  forall st, crawl_body site clock c n st = crawl_body site clock c' n st.
Proof.
  intros Hcc st.
  unfold crawl_body, bind, await_ok, await, get, ret, throw, close_page, push_result, log,
    try_catch.
  destruct (site n) as [np g ax lh ev cl]; cbn.
  destruct np, g, ax as [ax |], lh as [lh |], ev as [ev |], cl; cbn; try reflexivity;
    destruct (_ <? _)%Z; cbn; try reflexivity;
    rewrite (crawl_links_ext c c'); try reflexivity;
    intros h s Hh; apply filter_In in Hh as [_ Hh]; apply Hcc; exact Hh.
Qed.

(** Normalising twice is normalising once, and the scope and download checks
    give the same answer on a URL and on its canonical form, when the parser
    re-parses the serialisation of that URL's parse to itself. *)
Lemma normalize_idempotent P s b :
  href_roundtrip_at P s ->
  normalizeUrl P (normalizeUrl P s) = normalizeUrl P s /\
  isInternalUrl P b (normalizeUrl P s) = isInternalUrl P b s /\
  isWebPage P (normalizeUrl P s) = isWebPage P s.
Proof.
  intros Hrt; destruct (normalize_classify P b s Hrt) as [Ei Ew].
  split; [| split; assumption].
  unfold normalizeUrl at 2 3; destruct (P s) as [u |] eqn:E.
  - unfold normalizeUrl; rewrite (Hrt u E); destruct u; reflexivity.
  - unfold normalizeUrl; rewrite E; reflexivity.
Qed.

Lemma list_ascii_app a b :
  list_ascii_of_string (a ++ b)%string = list_ascii_of_string a ++ list_ascii_of_string b.
Proof. induction a; cbn; [reflexivity | rewrite IHa; reflexivity]. Qed.

Lemma list_ascii_lower s :
  list_ascii_of_string (toLowerCase s) = map ascii_lower (list_ascii_of_string s).
Proof. induction s; cbn; [reflexivity | rewrite IHs; reflexivity]. Qed.

Lemma substring_all s : substring 0 (String.length s) s = s.
Proof. induction s; cbn; [reflexivity | f_equal; exact IHs]. Qed.

Lemma substring_split s m :
  s = (substring 0 m s ++ substring m (String.length s - m) s)%string.
Proof.
  revert m; induction s as [| c s IH]; intros m; cbn.
  - destruct m; reflexivity.
  - destruct m as [| m]; cbn.
    + rewrite substring_all; reflexivity.
    + f_equal; apply IH.
Qed.

Lemma endsWith_split s ext :
  endsWith s ext = true -> exists pre, s = (pre ++ ext)%string.
Proof.
  unfold endsWith; intros H; apply andb_prop in H as [Hk H]; apply String.eqb_eq in H.
  apply Nat.leb_le in Hk.
  exists (substring 0 (String.length s - String.length ext) s).
  rewrite <- H at 2.
  set (m := (String.length s - String.length ext)%nat).
  transitivity (substring 0 m s ++ substring m (String.length s - m) s)%string;
    [apply substring_split | f_equal; f_equal; unfold m; lia].
Qed.

Lemma ascii_lower_dot c : ascii_lower c = "."%char -> c = "."%char.
Proof.
  unfold ascii_lower; destruct ((65 <=? nat_of_ascii c)%nat && (nat_of_ascii c <=? 90)%nat) eqn:E;
    [| auto].
  apply andb_prop in E as [E1 E2]; apply Nat.leb_le in E1, E2.
  intros H; apply (f_equal nat_of_ascii) in H.
  rewrite nat_ascii_embedding in H by lia; cbn in H; lia.
Qed.

Lemma fileExtensions_shape :
  forallb (fun e => existsb (Ascii.eqb "."%char) (list_ascii_of_string e) &&
                    match rev (list_ascii_of_string e) with
                    | x :: _ => negb (Ascii.eqb x "/"%char)
                    | [] => false
                    end) fileExtensions = true.
Proof. vm_compute; reflexivity. Qed.

(** A URL whose path has no dot, or ends in a slash, is always treated as a
    web page. *)
Lemma isWebPage_dotless_or_directory P s u :
  P s = Some u ->
  (~ In "."%char (list_ascii_of_string (pathname u)) \/
   exists pre, pathname u = (pre ++ "/")%string) ->
  isWebPage P s = true.
Proof.
  intros Hs Hpath; unfold isWebPage; rewrite Hs; apply negb_true_iff.
  destruct (existsb _ fileExtensions) eqn:E; [| reflexivity]; exfalso.
  apply existsb_exists in E as (ext & Hext & He).
  apply endsWith_split in He as (pre & Hp).
  pose proof fileExtensions_shape as Hshape; rewrite forallb_forall in Hshape.
  specialize (Hshape ext Hext); apply andb_prop in Hshape as [Hdot Hlast].
  apply (f_equal list_ascii_of_string) in Hp.
  rewrite list_ascii_lower, list_ascii_app in Hp.
  destruct Hpath as [Hnd | [pre' Hpre']].
  - apply existsb_exists in Hdot as (d & Hd & Ed); apply Ascii.eqb_eq in Ed; subst d.
    assert (Hin : In "."%char (map ascii_lower (list_ascii_of_string (pathname u))))
      by (rewrite Hp; apply in_or_app; right; exact Hd).
    apply in_map_iff in Hin as (c & Hc & Hcin).
    apply ascii_lower_dot in Hc; subst c; contradiction.
  - rewrite Hpre', list_ascii_app, map_app in Hp; cbn in Hp.
    apply (f_equal (@rev ascii)) in Hp; rewrite !rev_app_distr in Hp.
    destruct (rev (list_ascii_of_string ext)) as [| x r]; [discriminate |].
    cbn in Hp; injection Hp as Hx _; subst x; discriminate.
Qed.

(** A Lighthouse audit with a null score, a score of at least 1, or display
    mode notApplicable leaves the page's rendered Lighthouse section
    unchanged. *)
Lemma passing_audits_not_reported toFixed sc pre post a :
  score a = None \/ (exists q, score a = Some q /\ (1 <= q)%Q) \/
  scoreDisplayMode a = "notApplicable" ->
  render_lighthouse toFixed (Some (mkLhr sc (pre ++ a :: post))) =
  render_lighthouse toFixed (Some (mkLhr sc (pre ++ post))).
Proof.
  intros Ha.
  assert (Hf : failed_audit a = false).
  { unfold failed_audit; destruct Ha as [-> | [(q & -> & Hq) | Hm]]; [reflexivity | |].
    - apply Qle_bool_iff in Hq; rewrite Hq; reflexivity.
    - destruct (score a); [| reflexivity]; rewrite Hm; cbn; apply andb_false_r. }
  unfold render_lighthouse; cbn [audits]; rewrite !filter_app; cbn [filter]; rewrite Hf.
  reflexivity.
Qed.

Lemma fold_left_add {A} (f : A -> nat) l a :
  fold_left (fun s r => s + f r)%nat l a = (a + list_sum (map f l))%nat.
Proof.
  revert a; induction l as [| x l IH]; intros a; cbn [fold_left map]; [cbn; lia |].
  rewrite IH; change (list_sum (f x :: map f l)) with (f x + list_sum (map f l))%nat; lia.
Qed.

Lemma critical_serious_le vs :
  (length (filter (has_impact critical) vs) + length (filter (has_impact serious) vs)
   <= length vs)%nat.
Proof.
  unfold has_impact; induction vs as [| v vs IH]; [cbn; lia |].
  cbn [filter]; destruct (impact v) as [[] |]; cbn [ImpactValue_eqb length]; lia.
Qed.

(** The report's summary gives the number of results and the total, critical
    and serious violation counts summed over all results; the critical and
    serious counts together never exceed the total. *)
Lemma report_summary_counts dateToLocaleString toFixed rs :
  let total := list_sum (map (fun r => length (violations (axeResults r))) rs) in
  let crit := list_sum (map (fun r =>
                length (filter (has_impact critical) (violations (axeResults r)))) rs) in
  let ser := list_sum (map (fun r =>
                length (filter (has_impact serious) (violations (axeResults r)))) rs) in
  (crit + ser <= total)%nat /\
  exists rest,
    report_body dateToLocaleString toFixed rs =
      ("**Pages Analyzed:** " ++ nat_to_string (length rs) ++ nl ++ nl
       ++ "## Summary" ++ nl ++ nl ++ "### Axe-core Results" ++ nl ++ nl
       ++ "- **Total Violations:** " ++ nat_to_string total ++ nl
       ++ "- **Critical Issues:** " ++ nat_to_string crit ++ nl
       ++ "- **Serious Issues:** " ++ nat_to_string ser ++ rest)%string.
Proof.
  intros total crit ser; split.
  - unfold total, crit, ser; clear.
    induction rs as [| r rs IH]; [cbn; lia |]; cbn [map].
    change (list_sum (?a :: ?l)) with (a + list_sum l)%nat.
    pose proof (critical_serious_le (violations (axeResults r))); lia.
  - unfold report_body; cbv zeta.
    rewrite (fold_left_add (fun r => length (violations (axeResults r)))),
      (fold_left_add (fun r => length (filter (has_impact critical) (violations (axeResults r))))),
      (fold_left_add (fun r => length (filter (has_impact serious) (violations (axeResults r))))).
    eexists; reflexivity.
Qed.

Lemma list_ascii_replace cs r s :
  list_ascii_of_string (replace_chars cs r s)
  = map (fun c => if existsb (Ascii.eqb c) cs then r else c) (list_ascii_of_string s).
Proof. induction s; cbn; [reflexivity | rewrite IHs; reflexivity]. Qed.

Lemma list_ascii_substring0 m s :
  list_ascii_of_string (substring 0 m s) = firstn m (list_ascii_of_string s).
Proof.
  revert m; induction s as [| c s IH]; intros m; destruct m; cbn; try reflexivity.
  rewrite IH; reflexivity.
Qed.

Lemma in_firstn {A} (x : A) n l : In x (firstn n l) -> In x l.
Proof.
  intros H; rewrite <- (firstn_skipn n l); apply in_or_app; left; exact H.
Qed.

Lemma replace_not_in cs r s x :
  In x cs -> x <> r -> ~ In x (list_ascii_of_string (replace_chars cs r s)).
Proof.
  intros Hx Hr; rewrite list_ascii_replace; intros Hin.
  apply in_map_iff in Hin as (c & Hc & _).
  destruct (existsb (Ascii.eqb c) cs) eqn:E; [congruence |].
  subst c; assert (existsb (Ascii.eqb x) cs = true)
    by (apply existsb_exists; exists x; split; [exact Hx | apply Ascii.eqb_refl]).
  congruence.
Qed.

Lemma replace_in_other cs r s x :
  ~ In x cs -> x <> r ->
  (In x (list_ascii_of_string (replace_chars cs r s)) <-> In x (list_ascii_of_string s)).
Proof.
  intros Hx Hr; rewrite list_ascii_replace, in_map_iff; split.
  - intros (c & Hc & Hin); destruct (existsb (Ascii.eqb c) cs); [congruence | subst; exact Hin].
  - intros Hin; exists x; split; [| exact Hin].
    destruct (existsb (Ascii.eqb x) cs) eqn:E; [| reflexivity].
    apply existsb_exists in E as (y & Hy & Ey); apply Ascii.eqb_eq in Ey; subst; contradiction.
Qed.

Lemma substring0_replace cs r m s :
  substring 0 m (replace_chars cs r s) = replace_chars cs r (substring 0 m s).
Proof.
  revert m; induction s as [| c s IH]; intros m; destruct m; cbn; try reflexivity.
  rewrite IH; reflexivity.
Qed.

Lemma length_replace cs r s : String.length (replace_chars cs r s) = String.length s.
Proof. induction s; cbn; congruence. Qed.

Lemma string_app_assoc (a b c : string) : (a ++ b ++ c)%string = ((a ++ b) ++ c)%string.
Proof. induction a; cbn; [reflexivity | rewrite IHa; reflexivity]. Qed.

(** The default report name is a stem followed by .md; the stem has no dot
    and has a colon exactly when the hostname has one; for a 24-character
    ISO timestamp it is the hostname with dots as dashes, a dash, and the
    first 19 characters of the timestamp with colons and dots as dashes. *)
Lemma default_report_name_shape hostname iso :
  exists stem,
    default_report_name hostname iso = (stem ++ ".md")%string /\
    ~ In "."%char (list_ascii_of_string stem) /\
    (In ":"%char (list_ascii_of_string stem) <-> In ":"%char (list_ascii_of_string hostname)) /\
    (String.length iso = 24%nat ->
       stem = (replace_chars ["."%char] "-"%char hostname ++ "-"
               ++ replace_chars [":"%char; "."%char] "-"%char (substring 0 19 iso))%string).
Proof.
  unfold default_report_name, slice_drop_end.
  set (h := replace_chars ["."%char] "-"%char hostname).
  set (d := substring 0 (String.length (replace_chars [":"%char; "."%char] "-"%char iso) - 5)
              (replace_chars [":"%char; "."%char] "-"%char iso)).
  exists (h ++ "-" ++ d)%string; rewrite <- !string_app_assoc; split; [reflexivity |].
  assert (Hd : forall x, In x [":"%char; "."%char] ->
                 ~ In x (list_ascii_of_string d)).
  { intros x Hx Hin; unfold d in Hin.
    rewrite list_ascii_substring0 in Hin; apply in_firstn in Hin.
    revert Hin; apply replace_not_in; [exact Hx |].
    destruct Hx as [<- | [<- | []]]; discriminate. }
  rewrite !list_ascii_app; cbn [list_ascii_of_string].
  split; [| split].
  - intros Hin; apply in_app_or in Hin as [Hin | [Hin | Hin]];
      [ | discriminate | apply (Hd "."%char); [right; left; reflexivity | exact Hin]].
    revert Hin; apply replace_not_in; [left; reflexivity | discriminate].
  - split.
    + intros Hin; apply in_app_or in Hin as [Hin | [Hin | Hin]];
        [ | discriminate | exfalso; apply (Hd ":"%char); [left; reflexivity | exact Hin]].
      apply (replace_in_other ["."%char] "-"%char hostname ":"%char); 
        [intros [H | []]; discriminate H | discriminate | exact Hin].
    + intros Hin; apply in_or_app; left.
      apply (replace_in_other ["."%char] "-"%char hostname ":"%char);
        [intros [H | []]; discriminate H | discriminate | exact Hin].
  - intros Hlen; unfold d; rewrite length_replace, Hlen, substring0_replace; reflexivity.
Qed.

(** The first --output decides the report path: a non-empty value after it
    is used as is; an empty or missing value, or no --output, gives the
    default name under reports. *)
Lemma output_file_choice join pre v post hostname iso :
  ~ In "--output" pre ->
  outputFile join (pre ++ "--output" :: v :: post) hostname iso
    = (if truthy v then v else join "reports" (default_report_name hostname iso)) /\
  outputFile join (pre ++ ["--output"]) hostname iso
    = join "reports" (default_report_name hostname iso) /\
  outputFile join pre hostname iso = join "reports" (default_report_name hostname iso).
Proof.
  intros Hpre; unfold outputFile.
  rewrite !indexOf_first by exact Hpre; rewrite (indexOf_absent pre _ Hpre).
  destruct (Z.eqb_spec (Z.of_nat (length pre)) (-1)); [lia |].
  rewrite arg_at_after, (arg_at_end pre "--output"); cbn; repeat split.
Qed.

Lemma string_app_nil_r (a : string) : (a ++ "")%string = a.
Proof. induction a; cbn; [reflexivity | rewrite IHa; reflexivity]. Qed.

Lemma string_length_app (a b : string) :
  String.length (a ++ b)%string = (String.length a + String.length b)%nat.
Proof. induction a; cbn; [reflexivity | rewrite IHa; reflexivity]. Qed.

Lemma digit_value_digit d : (d < 10)%nat -> digit_value (ascii_of_nat (48 + d)) = Some d.
Proof.
  intros Hd; unfold digit_value; rewrite nat_ascii_embedding by lia.
  replace ((48 <=? 48 + d)%nat && (48 + d <=? 57)%nat) with true
    by (symmetry; apply andb_true_iff; split; apply Nat.leb_le; lia).
  f_equal; lia.
Qed.

Lemma digits_rev_value f n s acc b :
  (n < f)%nat ->
  digits_value 10 (digits_rev f n ++ s)%string acc b
  = digits_value 10 s (acc * 10 ^ Z.of_nat (String.length (digits_rev f n)) + Z.of_nat n)%Z true.
Proof.
  revert n s acc b; induction f as [| f IH]; intros n s acc b Hn; [lia |].
  cbn [digits_rev].
  assert (Hd : forall m t a c, (m < 10)%nat ->
             digits_value 10 (String (ascii_of_nat (48 + m)) "" ++ t)%string a c
             = digits_value 10 t (a * 10 + Z.of_nat m)%Z true).
  { intros m t a c Hm; cbn [append digits_value]; rewrite digit_value_digit by exact Hm.
    replace (m <? 10)%nat with true by (symmetry; apply Nat.ltb_lt; exact Hm); reflexivity. }
  destruct (n <? 10)%nat eqn:E.
  - apply Nat.ltb_lt in E; rewrite Hd by (apply Nat.mod_upper_bound; lia).
    rewrite Nat.mod_small by exact E; cbn [String.length]; f_equal; lia.
  - apply Nat.ltb_ge in E.
    rewrite <- string_app_assoc, IH by (apply Nat.Div0.div_lt_upper_bound; lia).
    rewrite Hd by (apply Nat.mod_upper_bound; lia).
    f_equal.
    rewrite string_length_app; cbn [String.length].
    rewrite Nat2Z.inj_add, Z.pow_add_r by lia.
    pose proof (Nat.div_mod_eq n 10) as Hdm.
    assert (Z.of_nat n = 10 * Z.of_nat (n / 10) + Z.of_nat (n mod 10))%Z as -> by lia.
    cbn [Z.of_nat Pos.of_succ_nat]; rewrite Z.pow_1_r; ring.
Qed.

Lemma digits_rev_first f n :
  (1 <= n < f)%nat -> exists c r, digits_rev f n = String c r /\
    (49 <= nat_of_ascii c <= 57)%nat.
Proof.
  revert n; induction f as [| f IH]; intros n Hn; [lia |].
  cbn [digits_rev]; destruct (n <? 10)%nat eqn:E.
  - apply Nat.ltb_lt in E; rewrite Nat.mod_small by exact E.
    exists (ascii_of_nat (48 + n)), ""; split; [reflexivity |].
    rewrite nat_ascii_embedding by lia; lia.
  - apply Nat.ltb_ge in E.
    destruct (IH (n / 10)%nat) as (c & r & Hcr & Hc).
    + split; [apply Nat.div_le_lower_bound; lia | apply Nat.Div0.div_lt_upper_bound; lia].
    + rewrite Hcr; exists c; eexists; split; [reflexivity | exact Hc].
Qed.

Lemma parseInt_leading_digit c r :
  (49 <= nat_of_ascii c <= 57)%nat ->
  parseInt (String c r) =
  match digits_value 10 (String c r) 0 false with
  | Some v => Some (number_of_Z (1 * v))
  | None => None
  end.
Proof.
  intros [H1 H2]; apply Nat.leb_le in H1, H2.
  destruct c as [[] [] [] [] [] [] [] []]; vm_compute in H1, H2;
    try discriminate; destruct r as [| c2 [| c3 r3]]; reflexivity.
Qed.

Lemma parseInt_decimal n :
  (1 <= n)%nat -> (Z.of_nat n <= 2 ^ 53)%Z ->
  parseInt (nat_to_string n) = Some (Finite (Z.of_nat n)).
Proof.
  intros Hn Hb; unfold nat_to_string.
  destruct (digits_rev_first (S n) n) as (c & r & Hcr & Hc); [lia |].
  rewrite Hcr, (parseInt_leading_digit c r Hc), <- Hcr.
  rewrite <- (string_app_nil_r (digits_rev (S n) n)), digits_rev_value by lia.
  cbn [digits_value]; f_equal.
  rewrite <- (number_of_Z_exact (Z.of_nat n)) by lia; f_equal; lia.
Qed.

(** A decimal number from 1 to [2^53] after the first --max-pages becomes
    the budget exactly. *)
Lemma max_pages_decimal pre post n :
  ~ In "--max-pages" pre -> (1 <= n)%nat -> (Z.of_nat n <= 2 ^ 53)%Z ->
  parseInt (nat_to_string n) = Some (Finite (Z.of_nat n)) /\
  maxPages_of_args (pre ++ "--max-pages" :: nat_to_string n :: post) = Finite (Z.of_nat n).
Proof.
  intros Hpre Hn Hb; pose proof (parseInt_decimal n Hn Hb) as Hp; split; [exact Hp |].
  unfold maxPages_of_args; rewrite indexOf_first by exact Hpre.
  destruct (Z.eqb_spec (Z.of_nat (length pre)) (-1)); [lia |].
  rewrite arg_at_after.
  destruct (digits_rev_first (S n) n) as (c & r & Hcr & _); [lia |].
  unfold truthy; unfold nat_to_string at 1; rewrite Hcr; cbn [String.eqb negb].
  rewrite Hp; unfold number_truthy; destruct (Z.eqb_spec (Z.of_nat n) 0); [lia | reflexivity].
Qed.

Lemma crawled_app c1 c2 : crawled (c1 ++ c2) = crawled c1 ++ crawled c2.
Proof. apply flat_map_app. Qed.

Lemma subseq_nil_l {A} (l : list A) : subseq [] l.
Proof. induction l; constructor; assumption. Qed.

Lemma subseq_app_r {A} (l1 l2 : list A) x : subseq l1 l2 -> subseq l1 (l2 ++ [x]).
Proof.
  induction 1; cbn; [apply subseq_nil_l | apply subseq_skip | apply subseq_take]; assumption.
Qed.

Lemma subseq_snoc {A} (l1 l2 : list A) x : subseq l1 l2 -> subseq (l1 ++ [x]) (l2 ++ [x]).
Proof.
  induction 1; cbn; [apply subseq_take, subseq_nil | apply subseq_skip | apply subseq_take];
    assumption.
Qed.

Lemma subseq_unsnoc {A} (l1 l2 : list A) x :
  subseq l1 (l2 ++ [x]) -> ~ In x l1 -> subseq l1 l2.
Proof.
  revert l1; induction l2 as [| y l2 IH]; intros l1 H Hx; cbn in H.
  - inversion H; subst; [inversion H2; subst; constructor |].
    exfalso; apply Hx; left; reflexivity.
  - inversion H; subst.
    + constructor; apply IH; assumption.
    + constructor; apply IH; [assumption | intros Hin; apply Hx; right; exact Hin].
Qed.

#[local] Hint Rewrite crawled_app : crawler_fields.

Lemma ord_log st e : Ord st -> crawled [e] = [] -> Ord (set_console (console st ++ [e]) st).
Proof.
  intros [Hc Hs Ha] He; constructor; autorewrite with crawler_fields; rewrite ?He, ?app_nil_r;
    auto.
  intros x Hx; apply in_or_app; left; auto.
Qed.

Lemma ord_push st V0 r :
  Ord st -> visitedUrls st = V0 ++ [url r] -> ~ In (url r) (map url (results st)) ->
  In (url r) (analyzed (console st)) ->
  Ord (set_results (results st ++ [r]) st).
Proof.
  intros [Hc Hs Ha] Hv Hn Hin; constructor; autorewrite with crawler_fields; auto.
  - rewrite map_app, Hv; cbn; apply subseq_snoc.
    rewrite Hv in Hs; apply (subseq_unsnoc _ _ _ Hs Hn).
  - rewrite map_app; intros x Hx; apply in_app_or in Hx as [Hx | [<- | []]]; auto.
Qed.

Lemma ord_reserve st n :
  Ord st ->
  let X := set_visited (visitedUrls st ++ [n]) st in
  Ord (set_console (console X ++ [EvCrawling n (size X) (maxPages X)]) X).
Proof.
  intros [Hc Hs Ha] X; unfold X; constructor; autorewrite with crawler_fields; cbn.
  - rewrite Hc; reflexivity.
  - apply subseq_app_r; exact Hs.
  - rewrite app_nil_r; exact Ha.
Qed.

Ltac ord_solve :=
  repeat match goal with
  | |- Ord (set_results (results ?X ++ [_]) ?X) =>
      eapply ord_push;
      [ | autorewrite with crawler_fields; cbn [url]; eassumption
        | autorewrite with crawler_fields; cbn [url]; assumption
        | autorewrite with crawler_fields; cbn; rewrite !in_app_iff; cbn; tauto ]
  | |- Ord (set_console (console ?X ++ [_]) ?X) => apply ord_log; [ | reflexivity ]
  | H : Ord ?X |- Ord ?X => exact H
  end.

Section CrawlOrd.

Variable P : string -> option URL.
Variable site : string -> page_behaviour.
Variable clock : nat -> string.

Definition crawl_ord (c : string -> M unit) : Prop :=
  forall u st, Inv P st -> Ord st -> Ord (fst (c u st)).

Lemma crawl_links_ord c links :
  crawl_ok P c -> crawl_ord c -> forall st, Inv P st -> Ord st ->
  Ord (fst (crawl_links c links st)).
Proof.
  intros Hc Ho; induction links as [| link rest IH]; intros st Hinv Hord; cbn; [exact Hord |].
  destruct (maxPages st <=? Z.of_nat (size st))%Z; cbn; [exact Hord |].
  unfold bind; destruct (Hc link st Hinv) as (Hi1 & _ & Hr1).
  pose proof (Ho link st Hinv Hord) as Ho1.
  destruct (c link st) as [st1 r1]; cbn in *; subst r1.
  apply IH; assumption.
Qed.

Lemma crawl_body_ord c n st V0 :
  crawl_ok P c -> crawl_ord c -> Inv P st -> Ord st ->
  visitedUrls st = V0 ++ [n] ->
  ~ In n (analyzed (console st)) -> ~ In n (map url (results st)) ->
  Ord (fst (try_catch (crawl_body site clock c n) (fun _ => log (EvCrawlError n)) st)).
Proof.
  intros Hc Ho Hinv Hord Hv Hna Hnr.
  assert (Hin : In n (visitedUrls st)) by (rewrite Hv; apply in_or_app; right; left; reflexivity).
  unfold crawl_body, try_catch, bind, await_ok, await, get, ret, throw, close_page,
    push_result, log.
  destruct (site n) as [np g ax lh ev cl]; cbn.
  destruct np, g, ax as [ax |], lh as [lh |], ev as [ev |], cl; cbn;
    try destruct (_ <? _)%Z; cbn;
    try match goal with
    | |- context [crawl_links c ?links ?X] =>
        assert (HX : Inv P X) by inv_solve;
        assert (HoX : Ord X) by ord_solve;
        pose proof (crawl_links_ord c links Hc Ho X HX HoX) as Ho2;
        pose proof (crawl_links_ok P c links Hc X HX) as (_ & _ & Hr2);
        destruct (crawl_links c links X) as [st2 [[] | e]]; cbn in *;
        [ exact Ho2 | discriminate ]
    end;
    ord_solve.
Qed.

Lemma crawl_f_ord fuel : crawl_ord (crawl_f P site clock fuel).
Proof.
  induction fuel as [| fuel IH]; intros u st Hinv Hord; cbn.
  - destruct (_ || _); cbn; exact Hord.
  - destruct (negb (browser st && context st) || (maxPages st <=? Z.of_nat (size st))%Z)
      eqn:Hg; cbn; [exact Hord |].
    apply orb_false_iff in Hg as [_ Hlt]; apply Z.leb_gt in Hlt.
    set (n := normalizeUrl P u).
    destruct (existsb (String.eqb n) (visitedUrls st)) eqn:Hv; cbn; [exact Hord |].
    destruct (isInternalUrl P (baseUrl st) n) eqn:Hi; cbn; [| exact Hord].
    destruct (isWebPage P n) eqn:Hw; cbn; [| exact Hord].
    unfold bind, add_visited, get, log; rewrite Hv; cbn.
    set (X := set_visited (visitedUrls st ++ [n]) st).
    set (Y := set_console (console X ++ [EvCrawling n (size X) (maxPages X)]) X).
    assert (Hn : ~ In n (visitedUrls st)) by (apply existsb_eqb_false; exact Hv).
    apply (crawl_body_ord (crawl_f P site clock fuel) n Y (visitedUrls st)
             (crawl_f_ok P site clock fuel) IH).
    + apply inv_reserve; auto.
    + apply ord_reserve; exact Hord.
    + reflexivity.
    + unfold Y, X; autorewrite with crawler_fields; cbn; rewrite app_nil_r.
      intros Ha; apply Hn, (inv_analyzed_visited _ _ Hinv); exact Ha.
    + unfold Y, X; autorewrite with crawler_fields.
      intros Hr; apply Hn, (inv_results_visited _ _ Hinv); exact Hr.
Qed.

End CrawlOrd.

Lemma reachable_ord P st : reachable P st -> Ord st.
Proof.
  induction 1 as [startUrl m st Hnew | st l c _ IH | st site clock u Hr IH].
  - unfold new_crawler in Hnew; destruct (P startUrl); [| discriminate].
    injection Hnew as <-; constructor; cbn; [reflexivity | constructor | intros ? []].
  - destruct IH; constructor; assumption.
  - apply (crawl_f_ord P site clock); [apply reachable_inv; exact Hr | exact IH].
Qed.

(** In every state of a session, the Crawling lines name exactly the visited
    URLs in the order they were reserved, the results follow that order
    (failed targets missing), and axe was run on each reported URL. *)
Lemma report_follows_crawl_order P st :
  reachable P st ->
  crawled (console st) = visitedUrls st /\
  subseq (map url (results st)) (visitedUrls st) /\
  incl (map url (results st)) (analyzed (console st)).
Proof. intros Hr; destruct (reachable_ord P st Hr); auto. Qed.



Lemma start_url_reserved_first_witness :
  exists st0, new_crawler demo_parse "https://example.com" 4 = Some st0 /\
  exists vs c,
    visitedUrls (fst (crawl demo_parse demo_site demo_clock "https://example.com"
                        (initialize true true st0))) = "https://example.com/" :: vs /\
    console (fst (crawl demo_parse demo_site demo_clock "https://example.com"
                    (initialize true true st0))) = EvCrawling "https://example.com/" 1 4 :: c.
Proof.
  eexists; split; [vm_compute; reflexivity |].
  apply (proj1 (start_url_reserved_first demo_parse demo_site demo_clock "https://example.com" 4 _
                  (table_roundtrip demo_table eq_refl "https://example.com") eq_refl
                  ltac:(lia)));
    vm_compute; reflexivity.
Defined.

Lemma loaded_page_is_reported_witness :
  exists st' ts rest,
    crawl_f demo_parse demo_site demo_clock 4 "https://example.com/c" (demo_start 4)
      = (st', inl tt) /\
    results st' = results (demo_start 4) ++
      mkPageResult "https://example.com/c" (mkAxe []) None ts :: rest.
Proof.
  destruct (loaded_page_is_reported demo_parse demo_site demo_clock 3 "https://example.com/c"
              (demo_start 4) (mkAxe []) (demo_start_reachable 4))
    as (st' & ts & rest & H1 & H2 & _);
    [ vm_compute; reflexivity | vm_compute; reflexivity | vm_compute; reflexivity
    | vm_compute; intros [] | vm_compute; reflexivity | vm_compute; reflexivity
    | vm_compute; reflexivity | vm_compute; reflexivity | vm_compute; reflexivity | ].
  exists st', ts, rest; split; [exact H1 | exact H2].
Defined.

Lemma extraction_failure_drops_links_witness :
  exists st',
    crawl_f demo_parse leaky_site demo_clock 4 "https://example.com/c" (demo_start 4)
      = (st', inl tt) /\
    In (EvCrawlError "https://example.com/c") (console st') /\
    ~ In (EvClosePage "https://example.com/c") (console st').
Proof.
  destruct (extraction_failure_drops_links demo_parse leaky_site demo_clock 3
              "https://example.com/c" (demo_start 4) (mkAxe []))
    as (st' & r & evs & H1 & _ & _ & _ & Hc & Herr & Hclose);
    [ vm_compute; reflexivity | vm_compute; reflexivity | vm_compute; reflexivity
    | vm_compute; intros [] | vm_compute; reflexivity | vm_compute; reflexivity
    | vm_compute; reflexivity | vm_compute; reflexivity | vm_compute; reflexivity
    | left; vm_compute; reflexivity | ].
  assert (H0 : console (demo_start 4) = []) by (vm_compute; reflexivity).
  exists st'; rewrite Hc, H0; split; [exact H1 | split; [exact Herr | exact (Hclose eq_refl)]].
Defined.

Lemma last_page_not_scanned_witness :
  exists st',
    crawl_f demo_parse demo_site demo_clock 2 "https://example.com" (demo_start 1)
      = (st', inl tt) /\
    ~ In (EvExtractLinks "https://example.com/") (console st') /\
    In (EvClosePage "https://example.com/") (console st').
Proof.
  destruct (last_page_not_scanned demo_parse demo_site demo_clock 1
              "https://example.com" (demo_start 1) (mkAxe []))
    as (st' & r & evs & H1 & _ & _ & _ & Hc & Hno & Hcl);
    [ vm_compute; reflexivity | vm_compute; reflexivity | vm_compute; reflexivity
    | vm_compute; intros [] | vm_compute; reflexivity | vm_compute; reflexivity
    | vm_compute; reflexivity | vm_compute; reflexivity | vm_compute; reflexivity | ].
  assert (H0 : console (demo_start 1) = []) by (vm_compute; reflexivity).
  exists st'; rewrite Hc, H0; split; [exact H1 | split; [exact Hno | exact Hcl]].
Defined.

Lemma only_http_links_followed_witness :
  crawl_body demo_site demo_clock (crawl_f demo_parse demo_site demo_clock 3)
    "https://example.com/" (demo_start 4) =
  crawl_body demo_site demo_clock
    (fun h st => if startsWith h "http" then crawl_f demo_parse demo_site demo_clock 3 h st
                 else (st, inl tt))
    "https://example.com/" (demo_start 4).
Proof.
  apply only_http_links_followed.
  intros h st Hh; rewrite Hh; reflexivity.
Defined.

Lemma normalize_idempotent_witness :
  normalizeUrl demo_parse (normalizeUrl demo_parse "https://ex.com/a#x")
    = normalizeUrl demo_parse "https://ex.com/a#x".
Proof.
  apply (normalize_idempotent demo_parse "https://ex.com/a#x" "https://ex.com"
           (table_roundtrip demo_table eq_refl "https://ex.com/a#x")).
Defined.

Lemma isWebPage_dotless_or_directory_witness :
  isWebPage demo_parse "https://example.com/a" = true.
Proof.
  apply (isWebPage_dotless_or_directory demo_parse _ (demo_url "example.com" "/a" None));
    [vm_compute; reflexivity |].
  left; cbn; intros [H | [H | []]]; discriminate H.
Defined.

Lemma passing_audits_not_reported_witness :
  render_lighthouse (fun _ _ => "80") (Some (mkLhr (Some (4 # 5))
     [mkAudit "Image alt" "Images need alt text" (Some 0) "binary";
      mkAudit "Contrast" "Colours contrast" None "manual"]))
  = render_lighthouse (fun _ _ => "80") (Some (mkLhr (Some (4 # 5))
     [mkAudit "Image alt" "Images need alt text" (Some 0) "binary"])).
Proof.
  apply (passing_audits_not_reported _ _
           [mkAudit "Image alt" "Images need alt text" (Some 0) "binary"] []).
  left; reflexivity.
Defined.

Lemma output_file_choice_witness :
  outputFile demo_join ["https://example.com"; "--output"; "out.md"] "example.com"
      "2026-10-15T11:48:45.732Z" = "out.md" /\
  outputFile demo_join ["https://example.com"; "--output"] "example.com"
      "2026-10-15T11:48:45.732Z" = "reports/example-com-2026-10-15T11-48-45.md".
Proof.
  destruct (output_file_choice demo_join ["https://example.com"] "out.md" [] "example.com"
              "2026-10-15T11:48:45.732Z") as (H1 & H2 & _);
    [intros [H | []]; discriminate H |].
  split; [exact H1 | etransitivity; [exact H2 | vm_compute; reflexivity]].
Defined.

Lemma max_pages_decimal_witness :
  maxPages_of_args ["https://example.com"; "--max-pages"; nat_to_string 250] = Finite 250.
Proof.
  apply (proj2 (max_pages_decimal ["https://example.com"] [] 250
                  ltac:(intros [H | []]; discriminate H) ltac:(lia)
                  ltac:(vm_compute; discriminate))).
Defined.

Lemma report_follows_crawl_order_witness :
  crawled (console demo_session) = visitedUrls demo_session /\
  subseq (map url (results demo_session)) (visitedUrls demo_session) /\
  incl (map url (results demo_session)) (analyzed (console demo_session)).
Proof. apply (report_follows_crawl_order demo_parse), demo_session_reachable. Defined.
